(** * sbomasm: the SPDX field-edit engine and the hierarchical merge engine

    A shallow embedding of [pkg/edit/spdx_edit.go] and
    [pkg/assemble/spdx/merge.go].  Go values are modelled as follows:

    - a [string] is a Rocq [string] (a byte string, as in Go);
    - a pointer that may be [nil] is an [option]; a slice whose [nil]-ness
      the code tests is an [option (list _)], any other slice a [list];
    - a [nil] dereference is the outcome [Panic] of the [result] monad;
    - relationships are heap objects: documents and the merge output hold
      pointers ([loc]) into a store that the merge updates in place. *)

From Stdlib Require Import String Ascii List Bool Arith Lia Permutation DecimalString.
Import ListNotations.
Open Scope string_scope.
Open Scope list_scope.
Open Scope nat_scope.

(* ------------------------------------------------------------------ *)
(** ** Go runtime and standard-library helpers *)

(** Outcome of a piece of Go code that may dereference [nil] or call
    [panic]. *)
Inductive result (A : Type) : Type :=
| Done (a : A)
| Panic.
Arguments Done {A} a.
Arguments Panic {A}.

Definition bind {A B} (m : result A) (k : A -> result B) : result B :=
  match m with
  | Done a => k a
  | Panic => Panic
  end.

Notation "x <- m ;; k" := (bind m (fun x => k))
  (at level 61, m at next level, right associativity).
Notation "' p <- m ;; k" := (bind m (fun p => k))
  (at level 61, p pattern, m at next level, right associativity).

(** [*p] for a pointer [p] that may be nil. *)
Definition deref {A} (p : option A) : result A :=
  match p with
  | Some a => Done a
  | None => Panic
  end.

(** [strings.HasPrefix(s, prefix)]. *)
Definition HasPrefix (s pre : string) : bool := String.prefix pre s.

(** [strings.ToLower] on the ASCII range.  Outside ASCII Go also folds
    Unicode letters; no such letter folds to a character of the two
    literals the code compares against, so the comparisons below agree. *)
Definition lower_ascii (a : ascii) : ascii :=
  let n := nat_of_ascii a in
  if (65 <=? n) && (n <=? 90) then ascii_of_nat (n + 32) else a.

Fixpoint ToLower (s : string) : string :=
  match s with
  | EmptyString => EmptyString
  | String a r => String (lower_ascii a) (ToLower r)
  end.

(** [fmt.Sprintf("%s (%s)", a, b)]. *)
Definition sprintf_paren (a b : string) : string :=
  (a ++ " (" ++ b ++ ")")%string.

(** [fmt.Sprintf("%s-%s", a, b)]. *)
Definition sprintf_dash (a b : string) : string :=
  (a ++ "-" ++ b)%string.

(** [strings.Join(l, sep)]. *)
Fixpoint Join (l : list string) (sep : string) : string :=
  match l with
  | [] => ""
  | [x] => x
  | x :: r => (x ++ sep ++ Join r sep)%string
  end.

(* ------------------------------------------------------------------ *)
(** ** The SPDX document model (the fields the two engines touch) *)

Record common_Creator : Type := mkCreator {
  Creator : string;
  CreatorType : string
}.

Record common_Supplier : Type := mkSupplier {
  Supplier : string;
  SupplierType : string
}.

Record Checksum : Type := mkChecksum {
  Algorithm : string;
  Value : string
}.

Record PackageExternalReference : Type := mkExtRef {
  Category : string;
  RefType : string;
  Locator : string
}.

Record Package : Type := mkPackage {
  PackageName : string;
  PackageSPDXIdentifier : string;
  PackageVersion : string;
  PackageSupplier : option common_Supplier;
  PackageDownloadLocation : string;
  FilesAnalyzed : bool;
  PackageChecksums : option (list Checksum);
  PackageLicenseConcluded : string;
  PackageLicenseDeclared : string;
  PackageCopyrightText : string;
  PackageDescription : string;
  PrimaryPackagePurpose : string;
  PackageExternalReferences : list (option PackageExternalReference)
}.

(** [spdx.Package{}]. *)
Definition emptyPackage : Package :=
  mkPackage "" "" "" None "" false None "" "" "" "" "" [].

Record CreationInfo : Type := mkCreationInfo {
  LicenseListVersion : string;
  Creators : option (list common_Creator);
  Created : string;
  CreatorComment : string
}.

(** [spdx.CreationInfo{}]. *)
Definition emptyCreationInfo : CreationInfo := mkCreationInfo "" None "" "".

Record DocElementID : Type := mkDocElementID {
  DocumentRefID : string;
  ElementRefID : string;
  SpecialID : string
}.

(** [common.MakeDocElementID(docRef, eltRef)]. *)
Definition MakeDocElementID (docRef eltRef : string) : DocElementID :=
  mkDocElementID docRef eltRef "".

Record spdx_Relationship : Type := mkRelationship {
  RefA : DocElementID;
  RefB : DocElementID;
  Relationship : string;
  RelationshipComment : string
}.

(** Address of a relationship object. *)
Definition loc : Type := nat.

(** Pass-through records; the engines never look inside them. *)
Record File : Type := mkFile { FileSPDXIdentifier : string; FileName : string }.
Record OtherLicense : Type := mkOtherLicense { LicenseIdentifier : string; ExtractedText : string }.
Record ExternalDocumentRef : Type := mkExternalDocumentRef { DocRefID : string; URI : string }.

Record Document : Type := mkDocument {
  SPDXVersion : string;
  DataLicense : string;
  SPDXIdentifier : string;
  DocumentName : string;
  DocumentNamespace : string;
  ExternalDocumentReferences : list ExternalDocumentRef;
  DocumentComment : string;
  Doc_CreationInfo : option CreationInfo;
  Packages : list (option Package);
  Files : list (option File);
  OtherLicenses : list (option OtherLicense);
  Relationships : list (option loc)
}.

(** [spdx.Document{}]. *)
Definition emptyDocument : Document :=
  mkDocument "" "" "" "" "" [] "" None [] [] [] [].

(** Field assignments, [p.F = v]. *)
Definition set_PackageName (v : string) (p : Package) : Package :=
  mkPackage v (PackageSPDXIdentifier p) (PackageVersion p) (PackageSupplier p)
    (PackageDownloadLocation p) (FilesAnalyzed p) (PackageChecksums p)
    (PackageLicenseConcluded p) (PackageLicenseDeclared p) (PackageCopyrightText p)
    (PackageDescription p) (PrimaryPackagePurpose p) (PackageExternalReferences p).

Definition set_PackageSPDXIdentifier (v : string) (p : Package) : Package :=
  mkPackage (PackageName p) v (PackageVersion p) (PackageSupplier p)
    (PackageDownloadLocation p) (FilesAnalyzed p) (PackageChecksums p)
    (PackageLicenseConcluded p) (PackageLicenseDeclared p) (PackageCopyrightText p)
    (PackageDescription p) (PrimaryPackagePurpose p) (PackageExternalReferences p).

Definition set_PackageVersion (v : string) (p : Package) : Package :=
  mkPackage (PackageName p) (PackageSPDXIdentifier p) v (PackageSupplier p)
    (PackageDownloadLocation p) (FilesAnalyzed p) (PackageChecksums p)
    (PackageLicenseConcluded p) (PackageLicenseDeclared p) (PackageCopyrightText p)
    (PackageDescription p) (PrimaryPackagePurpose p) (PackageExternalReferences p).

Definition set_PackageSupplier (v : option common_Supplier) (p : Package) : Package :=
  mkPackage (PackageName p) (PackageSPDXIdentifier p) (PackageVersion p) v
    (PackageDownloadLocation p) (FilesAnalyzed p) (PackageChecksums p)
    (PackageLicenseConcluded p) (PackageLicenseDeclared p) (PackageCopyrightText p)
    (PackageDescription p) (PrimaryPackagePurpose p) (PackageExternalReferences p).

Definition set_PackageDownloadLocation (v : string) (p : Package) : Package :=
  mkPackage (PackageName p) (PackageSPDXIdentifier p) (PackageVersion p) (PackageSupplier p)
    v (FilesAnalyzed p) (PackageChecksums p)
    (PackageLicenseConcluded p) (PackageLicenseDeclared p) (PackageCopyrightText p)
    (PackageDescription p) (PrimaryPackagePurpose p) (PackageExternalReferences p).

Definition set_FilesAnalyzed (v : bool) (p : Package) : Package :=
  mkPackage (PackageName p) (PackageSPDXIdentifier p) (PackageVersion p) (PackageSupplier p)
    (PackageDownloadLocation p) v (PackageChecksums p)
    (PackageLicenseConcluded p) (PackageLicenseDeclared p) (PackageCopyrightText p)
    (PackageDescription p) (PrimaryPackagePurpose p) (PackageExternalReferences p).

Definition set_PackageChecksums (v : option (list Checksum)) (p : Package) : Package :=
  mkPackage (PackageName p) (PackageSPDXIdentifier p) (PackageVersion p) (PackageSupplier p)
    (PackageDownloadLocation p) (FilesAnalyzed p) v
    (PackageLicenseConcluded p) (PackageLicenseDeclared p) (PackageCopyrightText p)
    (PackageDescription p) (PrimaryPackagePurpose p) (PackageExternalReferences p).

Definition set_PackageLicenseConcluded (v : string) (p : Package) : Package :=
  mkPackage (PackageName p) (PackageSPDXIdentifier p) (PackageVersion p) (PackageSupplier p)
    (PackageDownloadLocation p) (FilesAnalyzed p) (PackageChecksums p)
    v (PackageLicenseDeclared p) (PackageCopyrightText p)
    (PackageDescription p) (PrimaryPackagePurpose p) (PackageExternalReferences p).

Definition set_PackageLicenseDeclared (v : string) (p : Package) : Package :=
  mkPackage (PackageName p) (PackageSPDXIdentifier p) (PackageVersion p) (PackageSupplier p)
    (PackageDownloadLocation p) (FilesAnalyzed p) (PackageChecksums p)
    (PackageLicenseConcluded p) v (PackageCopyrightText p)
    (PackageDescription p) (PrimaryPackagePurpose p) (PackageExternalReferences p).

Definition set_PackageCopyrightText (v : string) (p : Package) : Package :=
  mkPackage (PackageName p) (PackageSPDXIdentifier p) (PackageVersion p) (PackageSupplier p)
    (PackageDownloadLocation p) (FilesAnalyzed p) (PackageChecksums p)
    (PackageLicenseConcluded p) (PackageLicenseDeclared p) v
    (PackageDescription p) (PrimaryPackagePurpose p) (PackageExternalReferences p).

Definition set_PackageDescription (v : string) (p : Package) : Package :=
  mkPackage (PackageName p) (PackageSPDXIdentifier p) (PackageVersion p) (PackageSupplier p)
    (PackageDownloadLocation p) (FilesAnalyzed p) (PackageChecksums p)
    (PackageLicenseConcluded p) (PackageLicenseDeclared p) (PackageCopyrightText p)
    v (PrimaryPackagePurpose p) (PackageExternalReferences p).

Definition set_PrimaryPackagePurpose (v : string) (p : Package) : Package :=
  mkPackage (PackageName p) (PackageSPDXIdentifier p) (PackageVersion p) (PackageSupplier p)
    (PackageDownloadLocation p) (FilesAnalyzed p) (PackageChecksums p)
    (PackageLicenseConcluded p) (PackageLicenseDeclared p) (PackageCopyrightText p)
    (PackageDescription p) v (PackageExternalReferences p).

Definition set_PackageExternalReferences (v : list (option PackageExternalReference))
    (p : Package) : Package :=
  mkPackage (PackageName p) (PackageSPDXIdentifier p) (PackageVersion p) (PackageSupplier p)
    (PackageDownloadLocation p) (FilesAnalyzed p) (PackageChecksums p)
    (PackageLicenseConcluded p) (PackageLicenseDeclared p) (PackageCopyrightText p)
    (PackageDescription p) (PrimaryPackagePurpose p) v.

Definition set_Creators (v : option (list common_Creator)) (ci : CreationInfo) : CreationInfo :=
  mkCreationInfo (LicenseListVersion ci) v (Created ci) (CreatorComment ci).

Definition set_Created (v : string) (ci : CreationInfo) : CreationInfo :=
  mkCreationInfo (LicenseListVersion ci) (Creators ci) v (CreatorComment ci).

Definition set_CreatorComment (v : string) (ci : CreationInfo) : CreationInfo :=
  mkCreationInfo (LicenseListVersion ci) (Creators ci) (Created ci) v.

Definition set_LicenseListVersion (v : string) (ci : CreationInfo) : CreationInfo :=
  mkCreationInfo v (Creators ci) (Created ci) (CreatorComment ci).

Definition set_DataLicense (v : string) (b : Document) : Document :=
  mkDocument (SPDXVersion b) v (SPDXIdentifier b) (DocumentName b) (DocumentNamespace b)
    (ExternalDocumentReferences b) (DocumentComment b) (Doc_CreationInfo b)
    (Packages b) (Files b) (OtherLicenses b) (Relationships b).

Definition set_DocumentComment (v : string) (b : Document) : Document :=
  mkDocument (SPDXVersion b) (DataLicense b) (SPDXIdentifier b) (DocumentName b)
    (DocumentNamespace b) (ExternalDocumentReferences b) v (Doc_CreationInfo b)
    (Packages b) (Files b) (OtherLicenses b) (Relationships b).

Definition set_CreationInfo (v : option CreationInfo) (b : Document) : Document :=
  mkDocument (SPDXVersion b) (DataLicense b) (SPDXIdentifier b) (DocumentName b)
    (DocumentNamespace b) (ExternalDocumentReferences b) (DocumentComment b) v
    (Packages b) (Files b) (OtherLicenses b) (Relationships b).

(* ------------------------------------------------------------------ *)
(** ** Package [edit]: the field-reconciliation engine *)

Module edit.

Definition SBOMASM : string := "sbomasm".
Definition SBOMASM_VERSION : string := "0.1.9".

Inductive error : Type :=
| errNoConfiguration
| errNotSupported
| errInvalidInput.

Record paramTuple : Type := mkParamTuple {
  pt_name : string;
  pt_value : string
}.

(** The edit configuration.  The struct and its methods are declared
    outside the two files; the fields the handlers read are kept under
    their names with the prefix [c_], and each method the handlers call
    ([shouldName], ..., [onMissing], [onAppend]) is the boolean it
    returns. *)
Record configParams : Type := mkConfigParams {
  search_subject : string;
  c_name : string;
  c_version : string;
  c_supplier : paramTuple;
  c_authors : list paramTuple;
  c_purl : string;
  c_cpe : string;
  c_copyright : string;
  c_description : string;
  c_repository : string;
  c_typ : string;
  c_lifecycles : list string;
  shouldName : bool;
  shouldVersion : bool;
  shouldSupplier : bool;
  shouldAuthors : bool;
  shouldPurl : bool;
  shouldCpe : bool;
  shouldLicenses : bool;
  shouldHashes : bool;
  shouldCopyRight : bool;
  shouldDescription : bool;
  shouldRepository : bool;
  shouldTyp : bool;
  shouldLifeCycle : bool;
  onMissing : bool;
  onAppend : bool
}.

(** The editing state.  [pkg] is the package object [d.pkg] points to
    ([None] when no component was resolved); it is one of the packages of
    [bom], and no handler reaches it through [bom]. *)
Record spdxEditDoc : Type := mkSpdxEditDoc {
  bom : Document;
  pkg : option Package;
  c : configParams
}.

Definition with_pkg (d : spdxEditDoc) (p : Package) : spdxEditDoc :=
  mkSpdxEditDoc (bom d) (Some p) (c d).

Definition with_bom (d : spdxEditDoc) (b : Document) : spdxEditDoc :=
  mkSpdxEditDoc b (pkg d) (c d).

(** What a handler hands back: the state after it and its [error]
    ([None] for a [nil] error). *)
Definition outcome : Type := (spdxEditDoc * option error)%type.

Definition ok (d : spdxEditDoc) : result outcome := Done (d, None).
Definition fails (d : spdxEditDoc) (e : error) : result outcome := Done (d, Some e).

Definition is_document (d : spdxEditDoc) : bool :=
  String.eqb (search_subject (c d)) "document".

(** The shape shared by the scalar component fields:
    [if onMissing { if cur == "" { cur = v } } else { cur = v }] on [d.pkg]. *)
Definition pkg_scalar (get : Package -> string) (set : string -> Package -> Package)
    (v : string) (d : spdxEditDoc) : result outcome :=
  p <- deref (pkg d) ;;
  if onMissing (c d) then
    if String.eqb (get p) "" then ok (with_pkg d (set v p)) else ok d
  else ok (with_pkg d (set v p)).

Definition name (d : spdxEditDoc) : result outcome :=
  if negb (shouldName (c d)) then fails d errNoConfiguration
  else if is_document d then fails d errNotSupported
  else pkg_scalar PackageName set_PackageName (c_name (c d)) d.

Definition version (d : spdxEditDoc) : result outcome :=
  if negb (shouldVersion (c d)) then fails d errNoConfiguration
  else if is_document d then fails d errNotSupported
  else pkg_scalar PackageVersion set_PackageVersion (c_version (c d)) d.

Definition supplier (d : spdxEditDoc) : result outcome :=
  if negb (shouldSupplier (c d)) then fails d errNoConfiguration
  else if is_document d then fails d errNotSupported
  else
    let supplier := mkSupplier
      (sprintf_paren (pt_name (c_supplier (c d))) (pt_value (c_supplier (c d))))
      "Organization" in
    p <- deref (pkg d) ;;
    if onMissing (c d) then
      match PackageSupplier p with
      | None => ok (with_pkg d (set_PackageSupplier (Some supplier) p))
      | Some _ => ok d
      end
    else ok (with_pkg d (set_PackageSupplier (Some supplier) p)).

Definition authors (d : spdxEditDoc) : result outcome :=
  if negb (shouldAuthors (c d)) then fails d errNoConfiguration
  else if negb (is_document d) then fails d errNotSupported
  else
    let authors := map (fun author =>
      mkCreator (sprintf_paren (pt_name author) (pt_value author)) "Person")
      (c_authors (c d)) in
    let fresh := mkCreationInfo "" (Some authors) "" "" in
    if onMissing (c d) then
      match Doc_CreationInfo (bom d) with
      | None => ok (with_bom d (set_CreationInfo (Some fresh) (bom d)))
      | Some ci =>
          match Creators ci with
          | None => ok (with_bom d (set_CreationInfo (Some (set_Creators (Some authors) ci)) (bom d)))
          | Some _ => ok d
          end
      end
    else if onAppend (c d) then
      match Doc_CreationInfo (bom d) with
      | None => ok (with_bom d (set_CreationInfo (Some fresh) (bom d)))
      | Some ci =>
          match Creators ci with
          | None => ok (with_bom d (set_CreationInfo (Some (set_Creators (Some authors) ci)) (bom d)))
          | Some cs =>
              ok (with_bom d (set_CreationInfo
                    (Some (set_Creators (Some (cs ++ authors)) ci)) (bom d)))
          end
      end
    else
      match Doc_CreationInfo (bom d) with
      | None => ok (with_bom d (set_CreationInfo (Some fresh) (bom d)))
      | Some ci => ok (with_bom d (set_CreationInfo (Some (set_Creators (Some authors) ci)) (bom d)))
      end.

(** [for _, ref := range refs { if ref.RefType == kind { found = true } }];
    a [nil] entry panics at [ref.RefType]. *)
Fixpoint foundRefType (kind : string) (refs : list (option PackageExternalReference))
    : result bool :=
  match refs with
  | [] => Done false
  | r :: rest =>
      x <- deref r ;;
      found <- foundRefType kind rest ;;
      Done (String.eqb (RefType x) kind || found)
  end.

(** [lo.Reject(refs, func(x, _) bool { return strings.ToLower(x.RefType) == kind })]. *)
Fixpoint rejectLowerRefType (kind : string) (refs : list (option PackageExternalReference))
    : result (list (option PackageExternalReference)) :=
  match refs with
  | [] => Done []
  | r :: rest =>
      x <- deref r ;;
      kept <- rejectLowerRefType kind rest ;;
      Done (if String.eqb (ToLower (RefType x)) kind then kept else r :: kept)
  end.

(** The body shared by [purl] and [cpe] after the configuration and the
    scope tests; [ref] is the reference built from the configuration and
    [kind] the literal compared against, in the scan and in [lo.Reject]. *)
Definition extref_update (kind : string) (ref : PackageExternalReference)
    (d : spdxEditDoc) : result outcome :=
  p <- deref (pkg d) ;;
  let refs := PackageExternalReferences p in
  found <- foundRefType kind refs ;;
  if onMissing (c d) then
    if negb found
    then ok (with_pkg d (set_PackageExternalReferences (refs ++ [Some ref]) p))
    else ok d
  else if onAppend (c d) then
    ok (with_pkg d (set_PackageExternalReferences (refs ++ [Some ref]) p))
  else
    extRef <- rejectLowerRefType kind refs ;;
    ok (with_pkg d (set_PackageExternalReferences (extRef ++ [Some ref]) p)).

Definition purl (d : spdxEditDoc) : result outcome :=
  if negb (shouldPurl (c d)) then fails d errNoConfiguration
  else if is_document d then fails d errNotSupported
  else extref_update "purl" (mkExtRef "PACKAGE-MANAGER" "purl" (c_purl (c d))) d.

Definition cpe (d : spdxEditDoc) : result outcome :=
  if negb (shouldCpe (c d)) then fails d errNoConfiguration
  else if is_document d then fails d errNotSupported
  else extref_update "cpe23Type" (mkExtRef "SECURITY" "cpe23Type" (c_cpe (c d))) d.

(** [removeCreator]. *)
Definition removeCreator (creators : list common_Creator) (creatorName : string)
    : list common_Creator :=
  filter (fun x => negb (HasPrefix (Creator x) creatorName)) creators.

(** [creatorExists]. *)
Definition creatorExists (creators : list common_Creator) (creator : common_Creator) : bool :=
  existsb (fun x => String.eqb (Creator x) (Creator creator)
                    && String.eqb (CreatorType x) (CreatorType creator)) creators.

(** [spdxUniqueCreators]: the set of display strings is built from
    [existing] once, before the loop over [newCreators]. *)
Definition spdxUniqueCreators (existing newCreators : list common_Creator)
    : list common_Creator :=
  existing ++
  filter (fun x => negb (existsb (fun e => String.eqb (Creator e) (Creator x)) existing))
         newCreators.


Section Handlers.

(** Helpers of the package that are declared outside the two files. *)
Variable spdxFindPkg : Document -> configParams -> bool -> option Package.
Variable spdxConstructLicenses : Document -> configParams -> string.
Variable spdxConstructHashes : Document -> configParams -> option (list Checksum).
Variable spdxConstructTools : Document -> configParams -> list common_Creator.
(** The lookup [spdx_strings_to_types[k]]; the empty string for a key
    that is not in the table. *)
Variable spdx_strings_to_types : string -> string.

(** [NewSpdxEditDoc]: a failed resolution is swallowed and leaves
    [d.pkg] nil. *)
Definition NewSpdxEditDoc (b : Document) (cfg : configParams) : spdxEditDoc :=
  let p1 :=
    if String.eqb (search_subject cfg) "primary-component"
    then spdxFindPkg b cfg true else None in
  let p2 :=
    if String.eqb (search_subject cfg) "component-name-version"
    then match spdxFindPkg b cfg false with Some p => Some p | None => p1 end
    else p1 in
  mkSpdxEditDoc b p2 cfg.

Definition licenses (d : spdxEditDoc) : result outcome :=
  if negb (shouldLicenses (c d)) then fails d errNoConfiguration
  else
    let license := spdxConstructLicenses (bom d) (c d) in
    if onMissing (c d) then
      if is_document d then
        if String.eqb (DataLicense (bom d)) ""
        then ok (with_bom d (set_DataLicense license (bom d))) else ok d
      else
        p <- deref (pkg d) ;;
        if String.eqb (PackageLicenseConcluded p) ""
        then ok (with_pkg d (set_PackageLicenseConcluded license p)) else ok d
    else
      if is_document d then ok (with_bom d (set_DataLicense license (bom d)))
      else
        p <- deref (pkg d) ;;
        ok (with_pkg d (set_PackageLicenseConcluded license p)).

Definition hashes (d : spdxEditDoc) : result outcome :=
  if negb (shouldHashes (c d)) then fails d errNoConfiguration
  else if is_document d then fails d errNotSupported
  else
    let hashes := spdxConstructHashes (bom d) (c d) in
    p <- deref (pkg d) ;;
    if onMissing (c d) then
      match PackageChecksums p with
      | None => ok (with_pkg d (set_PackageChecksums hashes p))
      | Some _ => ok d
      end
    else if onAppend (c d) then
      match PackageChecksums p with
      | None => ok (with_pkg d (set_PackageChecksums hashes p))
      | Some cs =>
          ok (with_pkg d (set_PackageChecksums
                (Some (cs ++ match hashes with Some h => h | None => [] end)) p))
      end
    else ok (with_pkg d (set_PackageChecksums hashes p)).

(** [if !creatorExists(cur, tool) { cur = spdxUniqueCreators(cur, []spdx.Creator{tool}) }]. *)
Definition stamp (cur : list common_Creator) (tool : common_Creator) : list common_Creator :=
  if negb (creatorExists cur tool) then spdxUniqueCreators cur [tool] else cur.

(** The running tool's default self-entry. *)
Definition defaultTool : common_Creator :=
  mkCreator (sprintf_dash SBOMASM SBOMASM_VERSION) "Tool".

(** The creator list [tools] leaves behind, from the list [creators] it
    finds and the configured tools [newTools]. *)
Definition toolsCreators (missing : bool) (creators newTools : list common_Creator)
    : list common_Creator :=
  let explicit := find (fun tool => HasPrefix (Creator tool) SBOMASM) newTools in
  let sbomasmTool := match explicit with Some tool => tool | None => defaultTool end in
  let creators := match explicit with
                  | Some _ => removeCreator creators SBOMASM
                  | None => creators
                  end in
  if missing then stamp (fold_left stamp newTools creators) sbomasmTool
  else stamp (spdxUniqueCreators creators newTools) sbomasmTool.

Definition tools (d : spdxEditDoc) : result outcome :=
  let ci := match Doc_CreationInfo (bom d) with
            | None => emptyCreationInfo
            | Some ci => ci
            end in
  let creators := match Creators ci with None => [] | Some cs => cs end in
  let b := set_CreationInfo (Some (set_Creators (Some creators) ci)) (bom d) in
  let newTools := spdxConstructTools b (c d) in
  (* the append branch and the overwrite branch are the same statements *)
  let cur := toolsCreators (onMissing (c d)) creators newTools in
  ok (with_bom d (set_CreationInfo (Some (set_Creators (Some cur) ci)) b)).

Definition copyright (d : spdxEditDoc) : result outcome :=
  if negb (shouldCopyRight (c d)) then fails d errNoConfiguration
  else if is_document d then fails d errNotSupported
  else pkg_scalar PackageCopyrightText set_PackageCopyrightText (c_copyright (c d)) d.

Definition description (d : spdxEditDoc) : result outcome :=
  if negb (shouldDescription (c d)) then fails d errNoConfiguration
  else if onMissing (c d) then
    if is_document d then
      if String.eqb (DocumentComment (bom d)) ""
      then ok (with_bom d (set_DocumentComment (c_description (c d)) (bom d))) else ok d
    else
      p <- deref (pkg d) ;;
      if String.eqb (PackageDescription p) ""
      then ok (with_pkg d (set_PackageDescription (c_description (c d)) p)) else ok d
  else
    if is_document d
    then ok (with_bom d (set_DocumentComment (c_description (c d)) (bom d)))
    else
      p <- deref (pkg d) ;;
      ok (with_pkg d (set_PackageDescription (c_description (c d)) p)).

Definition repository (d : spdxEditDoc) : result outcome :=
  if negb (shouldRepository (c d)) then fails d errNoConfiguration
  else if is_document d then fails d errNotSupported
  else pkg_scalar PackageDownloadLocation set_PackageDownloadLocation (c_repository (c d)) d.

Definition typ (d : spdxEditDoc) : result outcome :=
  if negb (shouldTyp (c d)) then fails d errNoConfiguration
  else if is_document d then fails d errNotSupported
  else
    let purpose := spdx_strings_to_types (ToLower (c_typ (c d))) in
    if String.eqb purpose "" then fails d errInvalidInput
    else pkg_scalar PrimaryPackagePurpose set_PrimaryPackagePurpose purpose d.

(** [timeStamp]; [now] is what [utcNowTime()] returns during the call. *)
Definition timeStamp (now : string) (d : spdxEditDoc) : result outcome :=
  let ci := match Doc_CreationInfo (bom d) with
            | None => emptyCreationInfo
            | Some ci => ci
            end in
  ok (with_bom d (set_CreationInfo (Some (set_Created now ci)) (bom d))).

Definition lifeCycles (d : spdxEditDoc) : result outcome :=
  if negb (shouldLifeCycle (c d)) then fails d errNoConfiguration
  else if negb (is_document d) then fails d errNotSupported
  else
    let lifecycles := ("lifecycle: " ++ Join (c_lifecycles (c d)) ",")%string in
    let ci := match Doc_CreationInfo (bom d) with
              | None => emptyCreationInfo
              | Some ci => ci
              end in
    if onMissing (c d) then
      if String.eqb (CreatorComment ci) ""
      then ok (with_bom d (set_CreationInfo (Some (set_CreatorComment lifecycles ci)) (bom d)))
      else ok (with_bom d (set_CreationInfo (Some ci) (bom d)))
    else ok (with_bom d (set_CreationInfo (Some (set_CreatorComment lifecycles ci)) (bom d))).

Definition handler : Type := spdxEditDoc -> result outcome.

(** The table of [update], in its order. *)
Definition updateFuncs (now : string) : list (string * handler) :=
  [ ("name", name);
    ("version", version);
    ("supplier", supplier);
    ("authors", authors);
    ("purl", purl);
    ("cpe", cpe);
    ("licenses", licenses);
    ("hashes", hashes);
    ("tools", tools);
    ("copyright", copyright);
    ("lifeCycles", lifeCycles);
    ("description", description);
    ("repository", repository);
    ("type", typ);
    ("timeStamp", timeStamp now) ].

(** The loop of [update]: a panic in one handler unwinds the loop.  The
    state is returned together with the error of each handler that ran
    (the observable part of which is the log line for [errNotSupported]). *)
Fixpoint runFuncs (fs : list (string * handler)) (d : spdxEditDoc)
    : result (spdxEditDoc * list (string * option error)) :=
  match fs with
  | [] => Done (d, [])
  | (nm, f) :: rest =>
      '(d1, err) <- f d ;;
      '(d2, log) <- runFuncs rest d1 ;;
      Done (d2, (nm, err) :: log)
  end.

Definition update (now : string) (d : spdxEditDoc)
    : result (spdxEditDoc * list (string * option error)) :=
  runFuncs (updateFuncs now) d.

(** A handler applied twice in succession. *)
Definition twice (f : handler) (d : spdxEditDoc) : result outcome :=
  '(d1, _) <- f d ;; f d1.

End Handlers.

End edit.

(* ------------------------------------------------------------------ *)
(** ** Package [assemble/spdx]: the hierarchical merge engine *)

Module assemble.

(** The application settings the merge reads ([MergeSettings.App]); the
    struct is declared outside the file, the fields keep their names. *)
Record Author : Type := mkAuthor { Author_Name : string; Author_Email : string }.
Record License : Type := mkLicense { License_Id : string; License_Expression : string }.

Record App : Type := mkApp {
  App_Name : string;
  App_Version : string;
  App_Description : string;
  App_Authors : list Author;
  App_PrimaryPurpose : string;
  App_Purl : string;
  App_CPE : string;
  App_License : License;
  App_Supplier : Author;
  App_Checksums : list Checksum;
  App_Copyright : string
}.

Record MergeSettings : Type := mkMergeSettings {
  Settings_App : App;
  Input_Files : list string;
  Output_File : string
}.

Record merge : Type := mkMerge {
  settings : MergeSettings;
  out : Document;
  in_ : list Document;
  rootPackageID : string
}.

Definition with_out (m : merge) (o : Document) : merge :=
  mkMerge (settings m) o (in_ m) (rootPackageID m).

(** The part of the process state the merge works on besides its own
    struct: the store of relationship objects with its allocation pointer,
    and the values [uuid.New().String()] returns, in the order of the
    calls. *)
Record World : Type := mkWorld {
  cells : loc -> spdx_Relationship;
  nextloc : loc;
  uuids : nat -> string;
  nextuuid : nat
}.

(** [uuid.New().String()]. *)
Definition uuid_New (w : World) : string * World :=
  (uuids w (nextuuid w), mkWorld (cells w) (nextloc w) (uuids w) (S (nextuuid w))).

(** [*l = r]. *)
Definition store (l : loc) (r : spdx_Relationship) (w : World) : World :=
  mkWorld (fun l' => if Nat.eqb l' l then r else cells w l')
          (nextloc w) (uuids w) (nextuuid w).

(** [&spdx.Relationship{...}]: a new object. *)
Definition new_Relationship (r : spdx_Relationship) (w : World) : loc * World :=
  (nextloc w,
   mkWorld (fun l' => if Nat.eqb l' (nextloc w) then r else cells w l')
           (S (nextloc w)) (uuids w) (nextuuid w)).

Definition TypeRelationshipDescribe : string := "DESCRIBES".
Definition TypeRelationshipContains : string := "CONTAINS".
Definition CategoryPackageManager : string := "PACKAGE-MANAGER".
Definition TypePackageManagerPURL : string := "purl".
Definition CategorySecurity : string := "SECURITY".
Definition TypeSecurityCPE23Type : string := "cpe23Type".
Definition spdx_Version : string := "SPDX-2.3".
Definition spdx_DataLicense : string := "CC0-1.0".

(** [newMerge]. *)
Definition newMerge (ms : MergeSettings) (w : World) : merge * World :=
  let '(u, w1) := uuid_New w in
  (mkMerge ms emptyDocument [] u, w1).

(** [lo.Uniq]: the first occurrence of each value, in order. *)
Fixpoint Uniq_from (seen l : list string) : list string :=
  match l with
  | [] => []
  | x :: r =>
      if existsb (String.eqb x) seen then Uniq_from seen r
      else x :: Uniq_from (x :: seen) r
  end.

Definition Uniq (l : list string) : list string := Uniq_from [] l.

(** The callback of [lo.Map] in [initOutBom]. *)
Definition licenseListVersionOf (b : Document) : string :=
  match Doc_CreationInfo b with
  | Some ci => LicenseListVersion ci
  | None => ""
  end.

(** The test that [strings.Trim(s, " ")] is not empty: some character of
    [s] is not a space. *)
Fixpoint notBlank (s : string) : bool :=
  match s with
  | EmptyString => false
  | String a r => if Ascii.eqb a " "%char then notBlank r else true
  end.

Section Semver.

(** The part of [github.com/Masterminds/semver/v3] the merge calls:
    [NewVersion] ([None] for an error), [Version.LessThan] (the order
    of [semver.Collection]) and [Version.String]. *)
Variable Version : Type.
Variable NewVersion : string -> option Version.
Variable LessThan : Version -> Version -> bool.
Variable VersionString : Version -> string.

(** The loop filling [vs]: the first candidate that does not parse panics. *)
Fixpoint parseAll (l : list string) : result (list Version) :=
  match l with
  | [] => Done []
  | r :: rest =>
      match NewVersion r with
      | None => Panic
      | Some v => vs <- parseAll rest ;; Done (v :: vs)
      end
  end.

(** [sort.Sort(semver.Collection(vs))], as the insertion sort the Go
    runtime runs on short slices. *)
Fixpoint insertVersion (v : Version) (l : list Version) : list Version :=
  match l with
  | [] => [v]
  | x :: r => if LessThan v x then v :: l else x :: insertVersion v r
  end.

Definition sortVersions (l : list Version) : list Version :=
  fold_left (fun acc v => insertVersion v acc) l [].

(** The selection of the license-list version in [initOutBom]. *)
Definition finalLicVersion (ins : list Document) : result string :=
  let lVersions := Uniq (map licenseListVersionOf ins) in
  if 1 <? length lVersions then
    vs <- parseAll lVersions ;;
    v0 <- deref (hd_error (sortVersions vs)) ;;
    Done (VersionString v0)
  else
    match lVersions with
    | [v] => if notBlank v then Done v else Done "3.19"
    | _ => Done "3.19"
    end.

(** Declared outside the file. *)
Variable composeNamespace : string -> string.
(** [version.GetVersionInfo().GitVersion]. *)
Variable GitVersion : string.

Definition itoa (n : nat) : string :=
  DecimalString.NilEmpty.string_of_uint (Nat.to_uint n).

(** [initOutBom]; [now] is what [utcNowTime()] returns. *)
Definition initOutBom (now : string) (m : merge) : result merge :=
  let app := Settings_App (settings m) in
  let comment :=
    ("Generated by sbomasm-" ++ GitVersion ++ " using " ++ itoa (length (in_ m)) ++ " sboms")%string in
  let creators :=
    map (fun author =>
           mkCreator
             (if negb (String.eqb (Author_Name author) "") || negb (String.eqb (Author_Email author) "")
              then sprintf_paren (Author_Name author) (Author_Email author) else "")
             "Organization")
        (App_Authors app)
    ++ [mkCreator (sprintf_dash "sbomasm" GitVersion) "Tool"] in
  lic <- finalLicVersion (in_ m) ;;
  Done (with_out m
    (mkDocument spdx_Version spdx_DataLicense "DOCUMENT" (App_Name app)
       (composeNamespace (App_Name app))
       (flat_map ExternalDocumentReferences (in_ m))
       (DocumentComment (out m))
       (Some (mkCreationInfo lic (Some creators) now comment))
       (Packages (out m)) (Files (out m)) (OtherLicenses (out m))
       (Relationships (out m)))).

End Semver.


Section Merge.

(** The table [spdx_hash_algos], declared outside the file, as its
    lookup. *)
Variable spdx_hash_algos : string -> string.
(** Modelled from the spec: [cloneComp], declared outside the file,
    makes an independent deep value copy of the package, one that
    shares nothing with it, or fails ([None]).  What the copy holds and
    when the copy fails are left open. *)
Variable cloneComp : option Package -> option Package.

Definition rootID (m : merge) : string :=
  ("RootPackage-" ++ rootPackageID m)%string.

(** [setupPrimaryComp], assignment by assignment. *)
Definition setupPrimaryComp (m : merge) : Package :=
  let app := Settings_App (settings m) in
  let p := emptyPackage in
  let p := set_PackageName (App_Name app) p in
  let p := set_PackageVersion (App_Version app) p in
  let p := set_PackageSPDXIdentifier (rootID m) p in
  let p := set_PackageDownloadLocation "NOASSERTION" p in
  let p :=
    if negb (String.eqb (Author_Name (App_Supplier app)) "")
       || negb (String.eqb (Author_Email (App_Supplier app)) "")
    then set_PackageSupplier
           (Some (mkSupplier
                    (sprintf_paren (Author_Name (App_Supplier app)) (Author_Email (App_Supplier app)))
                    "Organization")) p
    else set_PackageSupplier (Some (mkSupplier "NOASSERTION" "NOASSERTION")) p in
  let p := set_FilesAnalyzed false p in
  let p :=
    if 0 <? length (App_Checksums app)
    then set_PackageChecksums
           (Some (map (fun x => mkChecksum (spdx_hash_algos (Algorithm x)) (Value x))
                      (filter (fun x => negb (String.length (Value x) =? 0)) (App_Checksums app))))
           p
    else p in
  let p :=
    if negb (String.eqb (License_Id (App_License app)) "")
    then set_PackageLicenseConcluded (License_Id (App_License app)) p else p in
  let p :=
    if negb (String.eqb (License_Expression (App_License app)) "")
    then set_PackageLicenseConcluded (License_Expression (App_License app)) p else p in
  let p :=
    if negb (String.eqb (License_Expression (App_License app)) "")
       && String.eqb (License_Id (App_License app)) ""
    then set_PackageLicenseConcluded "NOASSERTION" (set_PackageLicenseDeclared "NOASSERTION" p)
    else p in
  let p :=
    if negb (String.eqb (App_Copyright app) "")
    then set_PackageCopyrightText (App_Copyright app) p
    else set_PackageCopyrightText "NOASSERTION" p in
  let p := set_PackageDescription (App_Description app) p in
  let p := set_PrimaryPackagePurpose (App_PrimaryPurpose app) p in
  let p := set_PackageExternalReferences [] p in
  let p :=
    if negb (String.eqb (App_Purl app) "")
    then set_PackageExternalReferences
           (PackageExternalReferences p
            ++ [Some (mkExtRef CategoryPackageManager TypePackageManagerPURL (App_Purl app))]) p
    else p in
  let p :=
    if negb (String.eqb (App_CPE app) "")
    then set_PackageExternalReferences
           (PackageExternalReferences p
            ++ [Some (mkExtRef CategorySecurity TypeSecurityCPE23Type (App_CPE app))]) p
    else p in
  p.

(** The loop of [isDescribedPackage] over [descRels], for the identifier
    [id] of a package that is not nil. *)
Fixpoint describes (w : World) (id : string) (descRels : list (option loc)) : bool :=
  match descRels with
  | [] => false
  | None :: rest => describes w id rest
  | Some l :: rest =>
      if String.eqb (ElementRefID (RefB (cells w l))) id then true
      else describes w id rest
  end.

Definition isDescribedPackage (w : World) (pkg : option Package)
    (descRels : list (option loc)) : bool :=
  match pkg with
  | None => false
  | Some p => describes w (PackageSPDXIdentifier p) descRels
  end.

Definition set_ElementRefID (v : string) (e : DocElementID) : DocElementID :=
  mkDocElementID (DocumentRefID e) v (SpecialID e).

(** The body of the [lo.ForEach] callback on a relationship that is not
    nil: [RefA] is tested and assigned, then [RefB]. *)
Definition retarget (old new : string) (r : spdx_Relationship) : spdx_Relationship :=
  let r1 :=
    if String.eqb (ElementRefID (RefA r)) old
    then mkRelationship (set_ElementRefID new (RefA r)) (RefB r)
           (Relationship r) (RelationshipComment r)
    else r in
  if String.eqb (ElementRefID (RefB r1)) old
  then mkRelationship (RefA r1) (set_ElementRefID new (RefB r1))
         (Relationship r1) (RelationshipComment r1)
  else r1.

(** [lo.ForEach(doc.Relationships, ...)]: the objects are updated in
    place, in list order; a nil entry is skipped. *)
Fixpoint retargetAll (old new : string) (rels : list (option loc)) (w : World) : World :=
  match rels with
  | [] => w
  | None :: rest => retargetAll old new rest w
  | Some l :: rest => retargetAll old new rest (store l (retarget old new (cells w l)) w)
  end.

(** The callback of the [lo.Filter] that computes [descRels]. *)
Definition isDescribes (w : World) (rel : option loc) : bool :=
  match rel with
  | None => false
  | Some l => String.eqb (Relationship (cells w l)) TypeRelationshipDescribe
  end.

(** The callback of the [lo.Filter] that collects the output relationships. *)
Definition isNotDescribes (w : World) (rel : option loc) : bool :=
  match rel with
  | None => false
  | Some l => negb (String.eqb (Relationship (cells w l)) TypeRelationshipDescribe)
  end.

(** The accumulators [pkgs] and [deps] together with the world. *)
Record acc : Type := mkAcc {
  acc_world : World;
  acc_pkgs : list (option Package);
  acc_deps : list (option loc)
}.

(** One turn of the loop over [doc.Packages].  When [cloneComp] fails
    the warning reads [pkg.PackageSPDXIdentifier], which panics on a nil
    package. *)
Definition ingestPackage (root : string) (doc : Document) (descRels : list (option loc))
    (pkg : option Package) (a : acc) : result acc :=
  let isDescPkg := isDescribedPackage (acc_world a) pkg descRels in
  match cloneComp pkg with
  | None => _ <- deref pkg ;; Done a
  | Some cPkg =>
      if isDescPkg then
        orig <- deref pkg ;;
        let '(u, w1) := uuid_New (acc_world a) in
        let cPkg := set_PackageSPDXIdentifier ("Package-" ++ u)%string cPkg in
        let '(l, w2) :=
          new_Relationship
            (mkRelationship (MakeDocElementID "" root)
               (MakeDocElementID "" (PackageSPDXIdentifier cPkg))
               TypeRelationshipContains "") w1 in
        let w3 := retargetAll (PackageSPDXIdentifier orig) (PackageSPDXIdentifier cPkg)
                    (Relationships doc) w2 in
        Done (mkAcc w3 (acc_pkgs a ++ [Some cPkg]) (acc_deps a ++ [Some l]))
      else Done (mkAcc (acc_world a) (acc_pkgs a ++ [Some cPkg]) (acc_deps a))
  end.

Fixpoint ingestPackages (root : string) (doc : Document) (descRels : list (option loc))
    (ps : list (option Package)) (a : acc) : result acc :=
  match ps with
  | [] => Done a
  | pkg :: rest =>
      a1 <- ingestPackage root doc descRels pkg a ;;
      ingestPackages root doc descRels rest a1
  end.

(** One turn of the loop over [m.in]. *)
Definition ingestDoc (root : string) (doc : Document) (a : acc) : result acc :=
  let descRels := filter (isDescribes (acc_world a)) (Relationships doc) in
  ingestPackages root doc descRels (Packages doc) a.

Fixpoint ingestDocs (root : string) (docs : list Document) (a : acc) : result acc :=
  match docs with
  | [] => Done a
  | doc :: rest =>
      a1 <- ingestDoc root doc a ;;
      ingestDocs root rest a1
  end.

(** [hierarchicalMerge], up to the call of [writeSBOM]: the result is the
    world and the merge whose [out] is the document handed to the writer. *)
Definition hierarchicalMerge (w : World) (m : merge) : result (World * merge) :=
  let pc := setupPrimaryComp m in
  let '(l0, w0) :=
    new_Relationship
      (mkRelationship (MakeDocElementID "" "DOCUMENT")
         (MakeDocElementID "" (PackageSPDXIdentifier pc))
         TypeRelationshipDescribe "") w in
  a <- ingestDocs (PackageSPDXIdentifier pc) (in_ m) (mkAcc w0 [Some pc] [Some l0]) ;;
  let w1 := acc_world a in
  let deps := acc_deps a
              ++ flat_map (fun doc => filter (isNotDescribes w1) (Relationships doc)) (in_ m) in
  let files := concat (map Files (in_ m)) in
  let otherLics := flat_map OtherLicenses (in_ m) in
  let o := out m in
  Done (w1,
        with_out m
          (mkDocument (SPDXVersion o) (DataLicense o) (SPDXIdentifier o) (DocumentName o)
             (DocumentNamespace o) (ExternalDocumentReferences o) (DocumentComment o)
             (Doc_CreationInfo o) (acc_pkgs a) files otherLics deps)).

(** [flatMerge]. *)
Definition flatMerge (m : merge) : option string :=
  Some "spdx flat merge not implemented".

End Merge.

End assemble.

(* ------------------------------------------------------------------ *)
(** * Predicates of the specification and sample inputs *)

(** Number of external references of the exact kind [kind]. *)
Definition countRefType (kind : string) (refs : list (option PackageExternalReference)) : nat :=
  length (filter (fun r => match r with
                           | Some x => String.eqb (RefType x) kind
                           | None => false
                           end) refs).

Definition noNilRef (refs : list (option PackageExternalReference)) : Prop :=
  Forall (fun r => r <> None) refs.

(** The configuration of the failing run of C1: [cpe] alone is
    configured, for the primary component, under the overwrite policy. *)
Definition cfg_cpe_overwrite : edit.configParams :=
  edit.mkConfigParams "primary-component" "" "" (edit.mkParamTuple "" "") []
    "" "cpe:2.3:a:acme:widget:2.0:*:*:*:*:*:*:*" "" "" "" "" []
    false false false false false true false false false false false false false
    false false.

Definition pkg_with_cpe : Package :=
  set_PackageExternalReferences
    [Some (mkExtRef "SECURITY" "cpe23Type" "cpe:2.3:a:acme:widget:1.0:*:*:*:*:*:*:*")]
    (set_PackageName "widget" emptyPackage).

Definition doc_cpe_overwrite : edit.spdxEditDoc :=
  edit.mkSpdxEditDoc emptyDocument (Some pkg_with_cpe) cfg_cpe_overwrite.

(** The failing run of C2: the primary component is asked for, the
    resolver finds none, and a name is configured. *)
Definition cfg_name_primary : edit.configParams :=
  edit.mkConfigParams "primary-component" "widget" "" (edit.mkParamTuple "" "") []
    "" "" "" "" "" "" []
    true false false false false false false false false false false false false
    true false.

Definition doc_unresolved : edit.spdxEditDoc :=
  edit.NewSpdxEditDoc (fun _ _ _ => None) emptyDocument cfg_name_primary.

(** The creator list of the document being edited ([nil] read as empty). *)
Definition creatorsOf (d : edit.spdxEditDoc) : list common_Creator :=
  match Doc_CreationInfo (edit.bom d) with
  | Some ci => match Creators ci with Some cs => cs | None => [] end
  | None => []
  end.

(** The display string of the running tool, name-version. *)
Definition stampString : string := sprintf_dash edit.SBOMASM edit.SBOMASM_VERSION.

Definition displays (s : string) (x : common_Creator) : bool :=
  String.eqb (Creator x) s.

(** A Tool-typed entry that displays the running tool's name-version. *)
Definition isCurrentStamp (x : common_Creator) : bool :=
  String.eqb (Creator x) stampString && String.eqb (CreatorType x) "Tool".

(** A Tool-typed entry that carries the running tool's name. *)
Definition isToolNamed (x : common_Creator) : bool :=
  String.eqb (CreatorType x) "Tool" && HasPrefix (Creator x) edit.SBOMASM.

(** [n] runs of the [tools] handler in succession. *)
Fixpoint runTools (spdxConstructTools : Document -> edit.configParams -> list common_Creator)
    (n : nat) (d : edit.spdxEditDoc) : result edit.spdxEditDoc :=
  match n with
  | 0 => Done d
  | S k => '(d1, _) <- edit.tools spdxConstructTools d ;; runTools spdxConstructTools k d1
  end.

(** No configured tool carries the running tool's name. *)
Definition noSelfConfigured
    (spdxConstructTools : Document -> edit.configParams -> list common_Creator)
    (cfg : edit.configParams) : Prop :=
  forall b, Forall (fun t => HasPrefix (Creator t) edit.SBOMASM = false)
                   (spdxConstructTools b cfg).

(** The name-version string is displayed at most once, by a Tool entry. *)
Definition stampedAtMostOnce (cs : list common_Creator) : Prop :=
  (forall x, In x cs -> Creator x = stampString -> CreatorType x = "Tool")
  /\ length (filter (displays stampString) cs) <= 1.

Definition with_creators (cs : list common_Creator) (cfg : edit.configParams)
    : edit.spdxEditDoc :=
  edit.mkSpdxEditDoc
    (set_CreationInfo (Some (mkCreationInfo "3.19" (Some cs) "2023-11-02T10:00:00Z" ""))
       emptyDocument)
    None cfg.

(** A configuration with nothing configured, subject the document,
    overwrite policy. *)
Definition cfg_document : edit.configParams :=
  edit.mkConfigParams "document" "" "" (edit.mkParamTuple "" "") []
    "" "" "" "" "" "" []
    false false false false false false false false false false false false false
    false false.

(** A document stamped by an older version of the tool. *)
Definition doc_stale : edit.spdxEditDoc :=
  with_creators [mkCreator "sbomasm-0.1.8" "Tool"] cfg_document.

(** A document that was never stamped. *)
Definition doc_unstamped : edit.spdxEditDoc :=
  with_creators [mkCreator "Jane Doe (jane@example.com)" "Person"] cfg_document.

Definition noTools (_ : Document) (_ : edit.configParams) : list common_Creator := [].

(** The helper [spdxConstructTools] reads the configuration only. *)
Definition configOnly
    (spdxConstructTools : Document -> edit.configParams -> list common_Creator) : Prop :=
  forall b b' cfg, spdxConstructTools b cfg = spdxConstructTools b' cfg.

(** Nothing configured, subject the document, missing policy. *)
Definition cfg_document_missing : edit.configParams :=
  edit.mkConfigParams "document" "" "" (edit.mkParamTuple "" "") []
    "" "" "" "" "" "" []
    false false false false false false false false false false false false false
    true false.

(** Configured tools that name the running tool itself. *)
Definition selfTools (_ : Document) (_ : edit.configParams) : list common_Creator :=
  [mkCreator "sbomasm-1.0.0" "Tool"; mkCreator "syft-1.4.1" "Tool"].

(** Configured tools that do not. *)
Definition otherTools (_ : Document) (_ : edit.configParams) : list common_Creator :=
  [mkCreator "syft-1.4.1" "Tool"].

Definition doc_no_creators : edit.spdxEditDoc :=
  with_creators [] cfg_document_missing.

(** The creator list a handler leaves behind ([nil] for a panic). *)
Definition creatorsAfter (r : result edit.outcome) : list common_Creator :=
  match r with
  | Done (d, _) => creatorsOf d
  | Panic => []
  end.

(** Helpers of a run in which licenses, hashes and the purpose are not
    configured. *)
Definition noLicense (_ : Document) (_ : edit.configParams) : string := "".
Definition noHashes (_ : Document) (_ : edit.configParams) : option (list Checksum) := None.
Definition noTypes (_ : string) : string := "".

(** *** A numeric instance of the semver interface

    The numeric core of what [semver.NewVersion] accepts, one to three
    dot-separated decimal numbers, missing ones read as zero, and what
    [Version.String] prints for it, always the three numbers. *)

Record numVersion : Type := mkNumVersion { major : nat; minor : nat; patch : nat }.

Definition digitOf (a : ascii) : option nat :=
  let n := nat_of_ascii a in
  if (48 <=? n) && (n <=? 57) then Some (n - 48) else None.

(** The dot-separated fields of [s]; [cur] is the field being read,
    reversed into [fields] at each dot. *)
Fixpoint splitDots (s : string) (cur : string) (fields : list string) : list string :=
  match s with
  | EmptyString => rev (cur :: fields)
  | String a r =>
      if Ascii.eqb a "."%char then splitDots r "" (cur :: fields)
      else splitDots r (cur ++ String a "")%string fields
  end.

Fixpoint natOfDigits (s : string) (acc : nat) : option nat :=
  match s with
  | EmptyString => Some acc
  | String a r =>
      match digitOf a with
      | Some k => natOfDigits r (10 * acc + k)
      | None => None
      end
  end.

Definition natOfField (s : string) : option nat :=
  match s with
  | EmptyString => None
  | _ => natOfDigits s 0
  end.

Definition numNewVersion (s : string) : option numVersion :=
  match map natOfField (splitDots s "" []) with
  | [Some a] => Some (mkNumVersion a 0 0)
  | [Some a; Some b] => Some (mkNumVersion a b 0)
  | [Some a; Some b; Some c] => Some (mkNumVersion a b c)
  | _ => None
  end.

Definition numLessThan (v w : numVersion) : bool :=
  (major v <? major w)
  || ((major v =? major w)
      && ((minor v <? minor w) || ((minor v =? minor w) && (patch v <? patch w)))).

Definition numString (v : numVersion) : string :=
  (assemble.itoa (major v) ++ "." ++ assemble.itoa (minor v) ++ "."
   ++ assemble.itoa (patch v))%string.

(** An input document that carries the license-list version [v]. *)
Definition doc_with_version (v : string) : Document :=
  set_CreationInfo (Some (set_LicenseListVersion v emptyCreationInfo)) emptyDocument.

(** An input document without creation information. *)
Definition doc_unversioned : Document := emptyDocument.

(** *** Predicates on worlds and merges *)

(** The identifier at the two ends of the relationship object at [l]. *)
Definition endA (w : assemble.World) (l : loc) : string :=
  ElementRefID (RefA (assemble.cells w l)).

Definition endB (w : assemble.World) (l : loc) : string :=
  ElementRefID (RefB (assemble.cells w l)).

(** Everything of a relationship but the identifiers at its two ends. *)
Definition sameButEnds (r r' : spdx_Relationship) : Prop :=
  Relationship r = Relationship r'
  /\ RelationshipComment r = RelationshipComment r'
  /\ DocumentRefID (RefA r) = DocumentRefID (RefA r')
  /\ SpecialID (RefA r) = SpecialID (RefA r')
  /\ DocumentRefID (RefB r) = DocumentRefID (RefB r')
  /\ SpecialID (RefB r) = SpecialID (RefB r').

(** The relationship objects of the inputs exist when the merge starts. *)
Definition allocated (w : assemble.World) (docs : list Document) : Prop :=
  forall doc l, In doc docs -> In (Some l) (Relationships doc) -> l < assemble.nextloc w.

(** No package entry of an input is nil. *)
Definition noNilPackage (docs : list Document) : Prop :=
  forall doc, In doc docs -> Forall (fun p => p <> None) (Packages doc).

(** The identifier [newid w k] the merge gives to the described
    component for which it draws the [k]-th UUID. *)
Definition newid (w : assemble.World) (k : nat) : string :=
  ("Package-" ++ assemble.uuids w k)%string.

(** [u] occurs in [id]. *)
Fixpoint occursInb (u id : string) : bool :=
  String.prefix u id
  || match id with
     | EmptyString => false
     | String _ r => occursInb u r
     end.

Definition occursIn (u id : string) : Prop := occursInb u id = true.

(** The identifiers that appear in the inputs when the merge starts:
    those of the packages and those at the ends of the relationships. *)
Definition inputIdentifier (w : assemble.World) (docs : list Document) (id : string) : Prop :=
  exists doc, In doc docs
    /\ ((exists p, In (Some p) (Packages doc) /\ PackageSPDXIdentifier p = id)
        \/ (exists l, In (Some l) (Relationships doc) /\ (endA w l = id \/ endB w l = id))).

(** What is observed of a run of the merge: the world and the output. *)
Definition observe (r : result (assemble.World * assemble.merge))
    : result (assemble.World * Document) :=
  '(w, m) <- r ;; Done (w, assemble.out m).

(** A document without the nil entries of its relationship list. *)
Definition dropNilRelationships (doc : Document) : Document :=
  mkDocument (SPDXVersion doc) (DataLicense doc) (SPDXIdentifier doc) (DocumentName doc)
    (DocumentNamespace doc) (ExternalDocumentReferences doc) (DocumentComment doc)
    (Doc_CreationInfo doc) (Packages doc) (Files doc) (OtherLicenses doc)
    (filter (fun r => match r with Some _ => true | None => false end) (Relationships doc)).

Definition with_in (m : assemble.merge) (docs : list Document) : assemble.merge :=
  assemble.mkMerge (assemble.settings m) (assemble.out m) docs (assemble.rootPackageID m).

(** [a'] is reached from [a] by steps of the ingest loops that update
    in place only the relationship objects in [T]: objects are only
    added, the UUID source only advances, an object that existed keeps
    everything but the identifiers at its ends, an end either keeps its
    identifier or receives one generated by the merge, and [deps] only
    grows, by new objects. *)
Definition extends (T : loc -> Prop) (a a' : assemble.acc) : Prop :=
  let w := assemble.acc_world a in
  let w' := assemble.acc_world a' in
  assemble.nextloc w <= assemble.nextloc w'
  /\ assemble.uuids w' = assemble.uuids w
  /\ assemble.nextuuid w <= assemble.nextuuid w'
  /\ (forall l, l < assemble.nextloc w ->
        sameButEnds (assemble.cells w l) (assemble.cells w' l))
  /\ (forall l, l < assemble.nextloc w ->
        endA w' l = endA w l
        \/ exists k, assemble.nextuuid w <= k < assemble.nextuuid w' /\ endA w' l = newid w k)
  /\ (forall l, l < assemble.nextloc w ->
        endB w' l = endB w l
        \/ exists k, assemble.nextuuid w <= k < assemble.nextuuid w' /\ endB w' l = newid w k)
  /\ (forall l, l < assemble.nextloc w -> ~ T l ->
        assemble.cells w' l = assemble.cells w l)
  /\ (exists ex, assemble.acc_deps a' = assemble.acc_deps a ++ ex
        /\ Forall (fun r => exists l, r = Some l
                                      /\ assemble.nextloc w <= l < assemble.nextloc w') ex).

(** The world after the turn of the package loop for a described
    package with identifier [old]: a UUID is drawn, the CONTAINS
    relationship is a new object, and the relationships of [doc] are
    rewritten. *)
Definition afterDescribed (root : string) (doc : Document) (old : string)
    (w : assemble.World) : assemble.World :=
  let new := newid w (assemble.nextuuid w) in
  assemble.retargetAll old new (Relationships doc)
    (snd (assemble.new_Relationship
            (mkRelationship (MakeDocElementID "" root) (MakeDocElementID "" new)
               assemble.TypeRelationshipContains "")
            (snd (assemble.uuid_New w)))).

(** The relationship objects a list of documents points to. *)
Definition pointedBy (docs : list Document) (l : loc) : Prop :=
  exists doc, In doc docs /\ In (Some l) (Relationships doc).

(** *** A sample merge

    Two inputs.  The first describes package A, which depends on B, and
    has a nil entry in its relationship list; the second describes
    package C. *)

Definition rel (a b kind : string) : spdx_Relationship :=
  mkRelationship (MakeDocElementID "" a) (MakeDocElementID "" b) kind "".

Definition sample_cells (l : loc) : spdx_Relationship :=
  match l with
  | 0 => rel "DOCUMENT" "SPDXRef-A" "DESCRIBES"
  | 1 => rel "SPDXRef-A" "SPDXRef-B" "DEPENDS_ON"
  | 2 => rel "DOCUMENT" "SPDXRef-C" "DESCRIBES"
  | _ => rel "" "" ""
  end.

Definition sample_uuids (k : nat) : string :=
  ("6ba7b810-9dad-11d1-80b4-00c04fd430c" ++ assemble.itoa k)%string.

Definition sample_package (id : string) : Package :=
  set_PackageSPDXIdentifier id (set_PackageName id emptyPackage).

Definition sample_doc (pkgs : list string) (rels : list (option loc)) : Document :=
  mkDocument "SPDX-2.3" "CC0-1.0" "DOCUMENT" "input" "" [] "" None
    (map (fun id => Some (sample_package id)) pkgs) [] [] rels.

Definition sample_doc1 : Document :=
  sample_doc ["SPDXRef-A"; "SPDXRef-B"] [Some 0; None; Some 1].

Definition sample_doc2 : Document := sample_doc ["SPDXRef-C"] [Some 2].

Definition sample_settings : assemble.MergeSettings :=
  assemble.mkMergeSettings
    (assemble.mkApp "product" "1.0" "" [] "application" "" ""
       (assemble.mkLicense "" "") (assemble.mkAuthor "" "") [] "")
    ["a.spdx.json"; "b.spdx.json"] "".

(** The merge after [newMerge] and [loadBoms], and the world then. *)
Definition sample_merge : assemble.merge :=
  with_in (fst (assemble.newMerge sample_settings
                  (assemble.mkWorld sample_cells 3 sample_uuids 0)))
    [sample_doc1; sample_doc2].

Definition sample_world : assemble.World :=
  snd (assemble.newMerge sample_settings (assemble.mkWorld sample_cells 3 sample_uuids 0)).

(** A [cloneComp] that always succeeds on a package, and fails on nil. *)
Definition cloneOk (p : option Package) : option Package := p.

Definition sameAlgo (s : string) : string := s.

(** Package [p] is described in [doc]: the world [w] holds a DESCRIBES
    relationship of [doc] whose second end is the identifier of [p]. *)
Definition describedIn (w : assemble.World) (doc : Document) (p : Package) : Prop :=
  exists l, In (Some l) (Relationships doc)
            /\ Relationship (assemble.cells w l) = assemble.TypeRelationshipDescribe
            /\ endB w l = PackageSPDXIdentifier p.

(** No relationship object belongs to two input documents (each input
    is loaded from its own file). *)
Fixpoint separate (docs : list Document) : Prop :=
  match docs with
  | [] => True
  | doc :: rest =>
      (forall l, In (Some l) (Relationships doc) -> ~ pointedBy rest l) /\ separate rest
  end.

(** The identifiers the merge generates are new: none is the identifier
    of a package of the inputs. *)
Definition freshIds (w : assemble.World) (docs : list Document) : Prop :=
  forall k doc p,
    assemble.nextuuid w <= k -> In doc docs -> In (Some p) (Packages doc) ->
    PackageSPDXIdentifier p <> newid w k.

(** Over the relationships [rels], from world [w] to world [w']: an end
    that is [Y] stays [Y]; an end that is not [X] does not become [X]. *)
Definition keeps (rels : list (option loc)) (Y : string) (w w' : assemble.World) : Prop :=
  forall l, In (Some l) rels ->
    (endA w l = Y -> endA w' l = Y) /\ (endB w l = Y -> endB w' l = Y).

Definition avoids (rels : list (option loc)) (X : string) (w w' : assemble.World) : Prop :=
  forall l, In (Some l) rels ->
    (endA w l <> X -> endA w' l <> X) /\ (endB w l <> X -> endB w' l <> X).

(** Over [rels], from [w] to [w']: every end that was [X] is [N], and no
    end is [X]. *)
Definition retargeted (rels : list (option loc)) (X N : string) (w w' : assemble.World) : Prop :=
  forall l, In (Some l) rels ->
    (endA w l = X -> endA w' l = N) /\ (endB w l = X -> endB w' l = N)
    /\ endA w' l <> X /\ endB w' l <> X.

(** The relationship objects of [doc] exist in the world of [a]. *)
Definition AL (doc : Document) (a : assemble.acc) : Prop :=
  forall l, In (Some l) (Relationships doc) ->
            l < assemble.nextloc (assemble.acc_world a).

(** *** A second sample merge

    The first input describes package A.  The second describes package
    C and has a relationship from C to the identifier of A. *)

Definition sample_cells2 (l : loc) : spdx_Relationship :=
  match l with
  | 0 => rel "DOCUMENT" "SPDXRef-A" "DESCRIBES"
  | 1 => rel "DOCUMENT" "SPDXRef-C" "DESCRIBES"
  | 2 => rel "SPDXRef-C" "SPDXRef-A" "DEPENDS_ON"
  | _ => rel "" "" ""
  end.

Definition sample_docA : Document := sample_doc ["SPDXRef-A"] [Some 0].

Definition sample_docC : Document := sample_doc ["SPDXRef-C"] [Some 1; Some 2].

Definition sample_merge2 : assemble.merge :=
  with_in (fst (assemble.newMerge sample_settings
                  (assemble.mkWorld sample_cells2 3 sample_uuids 0)))
    [sample_docA; sample_docC].

Definition sample_world2 : assemble.World :=
  snd (assemble.newMerge sample_settings (assemble.mkWorld sample_cells2 3 sample_uuids 0)).

(** *** A third sample merge

    The one input has a package whose identifier is RootPackage-
    followed by the UUID that the merge draws for its root component,
    and no relationship. *)

Definition sample_docR : Document :=
  sample_doc ["RootPackage-6ba7b810-9dad-11d1-80b4-00c04fd430c0"] [].

Definition sample_mergeR : assemble.merge :=
  with_in (fst (assemble.newMerge sample_settings
                  (assemble.mkWorld sample_cells 3 sample_uuids 0)))
    [sample_docR].

(** No package of the list has the identifier [id]. *)
Definition noPackageWithId (id : string) (pkgs : list (option Package)) : bool :=
  forallb (fun p => match p with
                    | Some q => negb (String.eqb (PackageSPDXIdentifier q) id)
                    | None => true
                    end) pkgs.

(** *** When [update] runs to its end *)

(** On states that satisfy [P] the handler returns, in a state that
    satisfies [P]. *)
Definition completesOn (P : edit.spdxEditDoc -> Prop) (f : edit.handler) : Prop :=
  forall d, P d -> exists d1 e, f d = Done (d1, e) /\ P d1.

(** The subject of the edit is the document. *)
Definition documentSubject (d : edit.spdxEditDoc) : Prop :=
  edit.is_document d = true.

(** A component was resolved, and no external reference of it is nil. *)
Definition componentReady (d : edit.spdxEditDoc) : Prop :=
  exists p, edit.pkg d = Some p /\ noNilRef (PackageExternalReferences p).

(** The head of a list of versions is a lowest element of it. *)
Definition lowestFirst {V : Type} (lt : V -> V -> bool) (l : list V) : Prop :=
  match l with
  | [] => True
  | h :: _ => forall y, In y l -> lt y h = false
  end.

(* ------------------------------------------------------------------ *)
(** * Properties of the edit engine *)

Section EditProperties.

Variable spdxConstructLicenses : Document -> edit.configParams -> string.
Variable spdxConstructHashes : Document -> edit.configParams -> option (list Checksum).
Variable spdxConstructTools : Document -> edit.configParams -> list common_Creator.
Variable spdx_strings_to_types : string -> string.

Local Abbreviation updateFuncs :=
  (edit.updateFuncs spdxConstructLicenses spdxConstructHashes
     spdxConstructTools spdx_strings_to_types).
Local Abbreviation update :=
  (edit.update spdxConstructLicenses spdxConstructHashes
     spdxConstructTools spdx_strings_to_types).
Local Abbreviation tools := (edit.tools spdxConstructTools).

Lemma lower_ascii_not_T : forall a, lower_ascii a <> "T"%char.
Proof.
  intros [[] [] [] [] [] [] [] []]; vm_compute; discriminate.
Qed.

Lemma ToLower_not_cpe23Type : forall s, String.eqb (ToLower s) "cpe23Type" = false.
Proof.
  intros s. apply String.eqb_neq. intros H.
  do 6 (destruct s as [|? s]; [discriminate H|]).
  simpl in H. injection H as _ _ _ _ _ H _.
  exact (lower_ascii_not_T _ H).
Qed.

Lemma foundRefType_noNil : forall kind refs,
  noNilRef refs -> exists b, edit.foundRefType kind refs = Done b.
Proof.
  intros kind refs H. induction H as [|r rest Hr _ IH].
  - exists false. reflexivity.
  - destruct r as [x|]; [|contradiction]. destruct IH as [b IH].
    simpl. rewrite IH. simpl. eauto.
Qed.

Lemma reject_cpe23Type_keeps_all : forall refs,
  noNilRef refs -> edit.rejectLowerRefType "cpe23Type" refs = Done refs.
Proof.
  intros refs H. induction H as [|r rest Hr _ IH].
  - reflexivity.
  - destruct r as [x|]; [|contradiction].
    simpl. rewrite IH. simpl. rewrite ToLower_not_cpe23Type. reflexivity.
Qed.

Lemma countRefType_app : forall kind l1 l2,
  countRefType kind (l1 ++ l2) = countRefType kind l1 + countRefType kind l2.
Proof.
  intros. unfold countRefType. rewrite filter_app, length_app. reflexivity.
Qed.

(** C1, the [cpe] half as the code has it.  Under the overwrite policy
    [cpe] removes nothing: [lo.Reject] compares the lower-cased kind with
    the mixed-case literal [cpe23Type], which no lower-cased string equals.
    Every existing reference stays and the new one is added behind them,
    so a component that had a [cpe23Type] reference has two afterwards. *)
Theorem cpe_overwrite_keeps_existing :
  forall (d : edit.spdxEditDoc) (p : Package),
    edit.pkg d = Some p ->
    noNilRef (PackageExternalReferences p) ->
    edit.shouldCpe (edit.c d) = true ->
    edit.is_document d = false ->
    edit.onMissing (edit.c d) = false ->
    edit.onAppend (edit.c d) = false ->
    exists p',
      edit.cpe d = Done (edit.with_pkg d p', None)
      /\ PackageExternalReferences p'
         = PackageExternalReferences p
           ++ [Some (mkExtRef "SECURITY" "cpe23Type" (edit.c_cpe (edit.c d)))]
      /\ countRefType "cpe23Type" (PackageExternalReferences p')
         = S (countRefType "cpe23Type" (PackageExternalReferences p)).
Proof.
  intros d p Hp Hnil Hs Hdoc Hm Ha.
  destruct (foundRefType_noNil "cpe23Type" _ Hnil) as [b Hb].
  eexists. split; [|split].
  - unfold edit.cpe, edit.extref_update.
    rewrite Hs, Hdoc, Hp, Hm, Ha. simpl.
    rewrite Hb. simpl.
    rewrite (reject_cpe23Type_keeps_all _ Hnil). simpl. reflexivity.
  - reflexivity.
  - simpl PackageExternalReferences. rewrite countRefType_app.
    change (countRefType "cpe23Type" [Some (mkExtRef "SECURITY" "cpe23Type" (edit.c_cpe (edit.c d)))]) with 1.
    lia.
Qed.

Lemma cpe_overwrite_keeps_existing_witness :
  exists p',
    edit.cpe doc_cpe_overwrite = Done (edit.with_pkg doc_cpe_overwrite p', None)
    /\ PackageExternalReferences p'
       = [Some (mkExtRef "SECURITY" "cpe23Type" "cpe:2.3:a:acme:widget:1.0:*:*:*:*:*:*:*");
          Some (mkExtRef "SECURITY" "cpe23Type" "cpe:2.3:a:acme:widget:2.0:*:*:*:*:*:*:*")]
    /\ countRefType "cpe23Type" (PackageExternalReferences p') = 2.
Proof.
  apply (cpe_overwrite_keeps_existing doc_cpe_overwrite pkg_with_cpe).
  - reflexivity.
  - repeat constructor; discriminate.
  - reflexivity.
  - reflexivity.
  - reflexivity.
  - reflexivity.
Defined.

Lemma ToLower_purl : ToLower "purl" = "purl".
Proof. reflexivity. Qed.

Lemma reject_purl_none_left : forall refs,
  noNilRef refs ->
  exists kept, edit.rejectLowerRefType "purl" refs = Done kept
               /\ countRefType "purl" kept = 0.
Proof.
  intros refs H. induction H as [|r rest Hr _ IH].
  - exists []. split; reflexivity.
  - destruct r as [x|]; [|contradiction]. destruct IH as [kept [IH Hc]].
    simpl. rewrite IH. simpl.
    destruct (String.eqb (ToLower (RefType x)) "purl") eqn:E.
    + exists kept. split; [reflexivity|exact Hc].
    + exists (Some x :: kept). split; [reflexivity|].
      unfold countRefType in *. simpl.
      destruct (String.eqb (RefType x) "purl") eqn:E2; [|exact Hc].
      apply String.eqb_eq in E2. rewrite E2 in E. discriminate E.
Qed.

(** The [purl] half of C1 holds on the code: under the overwrite policy
    exactly one reference of kind [purl] remains, the configured one. *)
Lemma purl_overwrite_exclusive :
  forall (d : edit.spdxEditDoc) (p : Package),
    edit.pkg d = Some p ->
    noNilRef (PackageExternalReferences p) ->
    edit.shouldPurl (edit.c d) = true ->
    edit.is_document d = false ->
    edit.onMissing (edit.c d) = false ->
    edit.onAppend (edit.c d) = false ->
    exists p',
      edit.purl d = Done (edit.with_pkg d p', None)
      /\ countRefType "purl" (PackageExternalReferences p') = 1
      /\ In (Some (mkExtRef "PACKAGE-MANAGER" "purl" (edit.c_purl (edit.c d))))
            (PackageExternalReferences p').
Proof.
  intros d p Hp Hnil Hs Hdoc Hm Ha.
  destruct (foundRefType_noNil "purl" _ Hnil) as [b Hb].
  destruct (reject_purl_none_left _ Hnil) as [kept [Hk Hc]].
  eexists. split; [|split].
  - unfold edit.purl, edit.extref_update.
    rewrite Hs, Hdoc, Hp, Hm, Ha. simpl.
    rewrite Hb. simpl. rewrite Hk. simpl. reflexivity.
  - simpl PackageExternalReferences. rewrite countRefType_app, Hc. reflexivity.
  - simpl. apply in_or_app. right. left. reflexivity.
Qed.

(** C2 on the code.  When no component was resolved ([d.pkg] is nil) and
    the subject is not the document, the first handler of the table whose
    field is configured dereferences the nil package: with [name]
    configured the loop of [update] stops in its first turn and none of
    the fourteen handlers after it runs. *)
Theorem update_panics_without_component :
  forall (now : string) (d : edit.spdxEditDoc),
    edit.pkg d = None ->
    edit.is_document d = false ->
    edit.shouldName (edit.c d) = true ->
    edit.name d = Panic /\ update now d = Panic.
Proof.
  intros now d Hp Hdoc Hs.
  assert (Hn : edit.name d = Panic).
  { unfold edit.name, edit.pkg_scalar. rewrite Hs, Hdoc, Hp. reflexivity. }
  split; [exact Hn|].
  unfold edit.update, edit.updateFuncs. simpl. rewrite Hn. reflexivity.
Qed.

(** *** The [tools] handler *)

Lemma find_none_of_Forall : forall (A : Type) (f : A -> bool) (l : list A),
  Forall (fun x => f x = false) l -> find f l = None.
Proof.
  intros A f l H. induction H as [|x r Hx _ IH]; simpl.
  - reflexivity.
  - rewrite Hx. exact IH.
Qed.

Lemma stamp_extends : forall cs t,
  exists ex, edit.stamp cs t = cs ++ ex /\ incl ex [t].
Proof.
  intros cs t. unfold edit.stamp, edit.spdxUniqueCreators.
  destruct (negb (edit.creatorExists cs t)).
  - eexists. split; [reflexivity|]. intros x Hx. apply filter_In in Hx. tauto.
  - exists []. split; [symmetry; apply app_nil_r|]. intros x [].
Qed.

Lemma fold_stamp_extends : forall T cs,
  exists ex, fold_left edit.stamp T cs = cs ++ ex /\ incl ex T.
Proof.
  induction T as [|t T IH]; intros cs; simpl.
  - exists []. split; [symmetry; apply app_nil_r|]. intros x [].
  - destruct (stamp_extends cs t) as [e1 [H1 I1]].
    destruct (IH (edit.stamp cs t)) as [e2 [H2 I2]].
    exists (e1 ++ e2). split.
    + rewrite H2, H1, app_assoc. reflexivity.
    + intros x Hx. apply in_app_or in Hx. destruct Hx as [Hx|Hx].
      * apply I1 in Hx. destruct Hx as [<-|[]]. left. reflexivity.
      * right. apply I2. exact Hx.
Qed.

Lemma unique_extends : forall cs T,
  exists ex, edit.spdxUniqueCreators cs T = cs ++ ex /\ incl ex T.
Proof.
  intros cs T. unfold edit.spdxUniqueCreators. eexists. split; [reflexivity|].
  intros x Hx. apply filter_In in Hx. tauto.
Qed.

Lemma stampString_has_name : HasPrefix stampString edit.SBOMASM = true.
Proof. reflexivity. Qed.

Lemma no_display_in_unnamed : forall ex,
  Forall (fun t => HasPrefix (Creator t) edit.SBOMASM = false) ex ->
  filter (displays stampString) ex = [].
Proof.
  intros ex H. induction H as [|x r Hx _ IH]; simpl.
  - reflexivity.
  - unfold displays at 1. destruct (String.eqb (Creator x) stampString) eqn:E.
    + apply String.eqb_eq in E. rewrite E, stampString_has_name in Hx. discriminate Hx.
    + exact IH.
Qed.

Lemma Forall_incl : forall (A : Type) (P : A -> Prop) (l l' : list A),
  incl l l' -> Forall P l' -> Forall P l.
Proof.
  intros A P l l' Hi Hf. apply Forall_forall. intros x Hx.
  rewrite Forall_forall in Hf. apply Hf, Hi, Hx.
Qed.

Lemma existsb_displays : forall s cs,
  existsb (fun e => String.eqb (Creator e) s) cs = false ->
  filter (displays s) cs = [].
Proof.
  induction cs as [|x cs IH]; simpl; intros H.
  - reflexivity.
  - apply orb_false_iff in H. destruct H as [H1 H2].
    unfold displays at 1. rewrite H1. apply IH, H2.
Qed.

Lemma filter_nonempty_of_In : forall (A : Type) (f : A -> bool) (l : list A) (x : A),
  In x l -> f x = true -> 1 <= length (filter f l).
Proof.
  intros A f l x Hin Hf.
  assert (H : In x (filter f l)) by (apply filter_In; split; assumption).
  destruct (filter f l); [destruct H|simpl; lia].
Qed.

(** One stamping step when no configured tool carries the tool's name. *)
Lemma toolsCreators_stamped_once : forall missing cs T,
  Forall (fun t => HasPrefix (Creator t) edit.SBOMASM = false) T ->
  stampedAtMostOnce cs ->
  let cs' := edit.toolsCreators missing cs T in
  stampedAtMostOnce cs'
  /\ length (filter (displays stampString) cs') = 1
  /\ incl cs cs'.
Proof.
  intros missing cs T HT [Hty Hle]. unfold edit.toolsCreators.
  rewrite (find_none_of_Forall _ _ _ HT).
  assert (HX : exists ex, (if missing then fold_left edit.stamp T cs
                           else edit.spdxUniqueCreators cs T) = cs ++ ex /\ incl ex T).
  { destruct missing; [apply fold_stamp_extends|apply unique_extends]. }
  destruct HX as [ex [HX Hin]].
  assert (Hex : filter (displays stampString) ex = []).
  { apply no_display_in_unnamed. exact (Forall_incl _ _ _ _ Hin HT). }
  set (X := cs ++ ex).
  assert (HtyX : forall x, In x X -> Creator x = stampString -> CreatorType x = "Tool").
  { intros x Hx Hc. apply in_app_or in Hx. destruct Hx as [Hx|Hx]; [auto|].
    exfalso. assert (Hf : In x (filter (displays stampString) ex)).
    { apply filter_In. split; [exact Hx|]. unfold displays. apply String.eqb_eq, Hc. }
    rewrite Hex in Hf. destruct Hf. }
  assert (HcX : length (filter (displays stampString) X) <= 1).
  { unfold X. rewrite filter_app, Hex, app_nil_r. exact Hle. }
  assert (Goal : let cs' := edit.stamp X edit.defaultTool in
                 stampedAtMostOnce cs'
                 /\ length (filter (displays stampString) cs') = 1 /\ incl cs cs').
  { unfold edit.stamp. destruct (edit.creatorExists X edit.defaultTool) eqn:E; cbn [negb].
    - unfold edit.creatorExists in E. apply existsb_exists in E.
      destruct E as [x [Hx Hb]]. apply andb_true_iff in Hb. destruct Hb as [Hb _].
      assert (1 <= length (filter (displays stampString) X)).
      { apply filter_nonempty_of_In with (x := x); assumption. }
      split; [split; assumption|]. split; [lia|].
      intros y Hy. apply in_or_app. left. exact Hy.
    - unfold edit.spdxUniqueCreators.
      assert (Hno : existsb (fun e => String.eqb (Creator e) (Creator edit.defaultTool)) X = false).
      { destruct (existsb (fun e => String.eqb (Creator e) (Creator edit.defaultTool)) X) eqn:E2;
          [|reflexivity].
        apply existsb_exists in E2. destruct E2 as [x [Hx Hb]].
        assert (Ht : CreatorType x = "Tool") by (apply HtyX; [exact Hx|apply String.eqb_eq, Hb]).
        assert (Hc : edit.creatorExists X edit.defaultTool = true).
        { unfold edit.creatorExists. apply existsb_exists. exists x. split; [exact Hx|].
          rewrite Hb. simpl. rewrite Ht. reflexivity. }
        rewrite Hc in E. discriminate E. }
      cbn [filter]. rewrite Hno. cbn [negb].
      assert (H0 : filter (displays stampString) X = []) by (apply existsb_displays, Hno).
      split; [split|split].
      + intros x Hx Hc. apply in_app_or in Hx. destruct Hx as [Hx|[<-|[]]]; [auto|reflexivity].
      + rewrite filter_app, H0. simpl. lia.
      + rewrite filter_app, H0. reflexivity.
      + intros y Hy. apply in_or_app. left. apply in_or_app. left. exact Hy. }
  destruct missing; rewrite HX; exact Goal.
Qed.

Lemma current_stamp_count : forall cs,
  (forall x, In x cs -> Creator x = stampString -> CreatorType x = "Tool") ->
  filter isCurrentStamp cs = filter (displays stampString) cs.
Proof.
  intros cs H. apply filter_ext_in. intros x Hx. unfold isCurrentStamp, displays.
  destruct (String.eqb (Creator x) stampString) eqn:E; [|reflexivity].
  apply String.eqb_eq in E. rewrite (H x Hx E). reflexivity.
Qed.

Lemma tools_creators : forall d,
  exists d',
    tools d = Done (d', None)
    /\ edit.c d' = edit.c d
    /\ exists b,
         creatorsOf d'
         = edit.toolsCreators (edit.onMissing (edit.c d)) (creatorsOf d)
             (spdxConstructTools b (edit.c d)).
Proof.
  intros d. eexists. split; [reflexivity|]. split; [reflexivity|].
  unfold creatorsOf. simpl.
  destruct (Doc_CreationInfo (edit.bom d)) as [ci|]; simpl.
  - destruct (Creators ci); eexists; reflexivity.
  - eexists; reflexivity.
Qed.


(** When a configured tool carries the running tool's name, [tools]
    does remove every older entry with that name: afterwards an entry
    that carries the name is one of the configured tools. *)
Lemma toolsCreators_explicit_removes_stale : forall missing cs T t x,
  find (fun tool => HasPrefix (Creator tool) edit.SBOMASM) T = Some t ->
  In x (edit.toolsCreators missing cs T) ->
  HasPrefix (Creator x) edit.SBOMASM = true ->
  In x T.
Proof.
  intros missing cs T t x Hf Hx Hpre. unfold edit.toolsCreators in Hx. rewrite Hf in Hx.
  assert (Ht : In t T) by (apply find_some in Hf; tauto).
  set (cs' := edit.removeCreator cs edit.SBOMASM) in *.
  assert (Hcs' : ~ In x cs').
  { intros H. apply filter_In in H. destruct H as [_ H]. rewrite Hpre in H. discriminate H. }
  assert (HX : exists ex, (if missing then fold_left edit.stamp T cs'
                           else edit.spdxUniqueCreators cs' T) = cs' ++ ex /\ incl ex T).
  { destruct missing; [apply fold_stamp_extends|apply unique_extends]. }
  destruct HX as [ex [HX Hin]].
  assert (Hx' : In x (edit.stamp (cs' ++ ex) t)) by (destruct missing; rewrite <- HX; exact Hx).
  destruct (stamp_extends (cs' ++ ex) t) as [e2 [He2 Hi2]]. rewrite He2 in Hx'.
  apply in_app_or in Hx'. destruct Hx' as [Hx'|Hx'].
  - apply in_app_or in Hx'. destruct Hx' as [Hx'|Hx']; [contradiction|apply Hin, Hx'].
  - apply Hi2 in Hx'. destruct Hx' as [<-|[]]. exact Ht.
Qed.

(** *** The missing policy applied twice *)

Local Abbreviation licenses := (edit.licenses spdxConstructLicenses).
Local Abbreviation hashes := (edit.hashes spdxConstructHashes).
Local Abbreviation typ := (edit.typ spdx_strings_to_types).

Ltac rw_hyps :=
  repeat match goal with
         | H : ?x = _ |- context [?x] => rewrite H
         end.

Ltac case_step :=
  match goal with
  | |- context [if ?b then _ else _] => destruct b eqn:?
  | |- context [match ?o with Some _ => _ | None => _ end] => destruct o eqn:?
  end.

Lemma scalar_twice : forall get set v d,
  (forall w p, get (set w p) = w) ->
  (forall w w' p, set w (set w' p) = set w p) ->
  edit.onMissing (edit.c d) = true ->
  ('(d1, _) <- edit.pkg_scalar get set v d ;; edit.pkg_scalar get set v d1)
  = edit.pkg_scalar get set v d.
Proof.
  intros get set v [b [p|] cfg] Hgs Hss Hm; cbn in Hm;
    unfold edit.pkg_scalar, edit.ok, edit.with_pkg; cbn; [|reflexivity].
  rewrite Hm. destruct (String.eqb (get p) "") eqn:E; cbn; rewrite Hm.
  - rewrite Hgs. destruct (String.eqb v ""); [|reflexivity].
    rewrite Hss. reflexivity.
  - rewrite E. reflexivity.
Qed.

(** A component-scoped scalar handler: the two guards, then [pkg_scalar]. *)
Lemma guarded_scalar_twice : forall (should : edit.configParams -> bool) get set
    (val : edit.configParams -> string) d,
  (forall w p, get (set w p) = w) ->
  (forall w w' p, set w (set w' p) = set w p) ->
  edit.onMissing (edit.c d) = true ->
  let f := fun d =>
    if negb (should (edit.c d)) then edit.fails d edit.errNoConfiguration
    else if edit.is_document d then edit.fails d edit.errNotSupported
    else edit.pkg_scalar get set (val (edit.c d)) d in
  edit.twice f d = f d.
Proof.
  intros should get set val d Hgs Hss Hm f. unfold edit.twice, f.
  destruct (should (edit.c d)) eqn:Hs; cbn; [|rewrite Hs; reflexivity].
  destruct (edit.is_document d) eqn:Hd; cbn.
  - rewrite Hs. cbn. rewrite Hd. reflexivity.
  - rewrite <- (scalar_twice get set (val (edit.c d)) d Hgs Hss Hm) at 2.
    destruct d as [b [p|] cfg]; unfold edit.pkg_scalar, edit.ok, edit.with_pkg, edit.is_document in *;
      cbn in *; [|reflexivity].
    rewrite Hm. destruct (String.eqb (get p) ""); cbn; rewrite Hs, Hd; reflexivity.
Qed.

Lemma name_twice : forall d,
  edit.onMissing (edit.c d) = true -> edit.twice edit.name d = edit.name d.
Proof.
  intros d Hm.
  exact (guarded_scalar_twice edit.shouldName PackageName set_PackageName edit.c_name d
           (fun _ _ => eq_refl) (fun _ _ _ => eq_refl) Hm).
Qed.

Lemma version_twice : forall d,
  edit.onMissing (edit.c d) = true -> edit.twice edit.version d = edit.version d.
Proof.
  intros d Hm.
  exact (guarded_scalar_twice edit.shouldVersion PackageVersion set_PackageVersion
           edit.c_version d (fun _ _ => eq_refl) (fun _ _ _ => eq_refl) Hm).
Qed.

Lemma copyright_twice : forall d,
  edit.onMissing (edit.c d) = true -> edit.twice edit.copyright d = edit.copyright d.
Proof.
  intros d Hm.
  exact (guarded_scalar_twice edit.shouldCopyRight PackageCopyrightText
           set_PackageCopyrightText edit.c_copyright d
           (fun _ _ => eq_refl) (fun _ _ _ => eq_refl) Hm).
Qed.

Lemma repository_twice : forall d,
  edit.onMissing (edit.c d) = true -> edit.twice edit.repository d = edit.repository d.
Proof.
  intros d Hm.
  exact (guarded_scalar_twice edit.shouldRepository PackageDownloadLocation
           set_PackageDownloadLocation edit.c_repository d
           (fun _ _ => eq_refl) (fun _ _ _ => eq_refl) Hm).
Qed.

Ltac twice_auto :=
  unfold edit.twice;
  repeat (cbn in *; rw_hyps; try reflexivity; case_step).

Lemma typ_twice : forall d,
  edit.onMissing (edit.c d) = true -> edit.twice typ d = typ d.
Proof.
  intros [b [p|] cfg] Hm;
  unfold edit.typ, edit.pkg_scalar, edit.ok, edit.fails, edit.with_pkg, edit.is_document;
  twice_auto.
Qed.

Lemma supplier_twice : forall d,
  edit.onMissing (edit.c d) = true -> edit.twice edit.supplier d = edit.supplier d.
Proof.
  intros [b [p|] cfg] Hm;
  unfold edit.supplier, edit.ok, edit.fails, edit.with_pkg, edit.is_document;
  twice_auto.
Qed.

Lemma authors_twice : forall d,
  edit.onMissing (edit.c d) = true -> edit.twice edit.authors d = edit.authors d.
Proof.
  intros [b [p|] cfg] Hm;
  unfold edit.authors, edit.ok, edit.fails, edit.with_bom, edit.is_document;
  twice_auto.
Qed.

Lemma description_twice : forall d,
  edit.onMissing (edit.c d) = true -> edit.twice edit.description d = edit.description d.
Proof.
  intros [b [p|] cfg] Hm;
  unfold edit.description, edit.ok, edit.fails, edit.with_bom, edit.with_pkg, edit.is_document;
  twice_auto.
Qed.

Lemma hashes_twice : forall d,
  edit.onMissing (edit.c d) = true -> edit.twice hashes d = hashes d.
Proof.
  intros [b [p|] cfg] Hm;
  unfold edit.hashes, edit.ok, edit.fails, edit.with_pkg, edit.is_document;
  twice_auto.
Qed.

Lemma lifeCycles_twice : forall d,
  edit.onMissing (edit.c d) = true -> edit.twice edit.lifeCycles d = edit.lifeCycles d.
Proof.
  intros [b [p|] cfg] Hm;
  unfold edit.lifeCycles, edit.ok, edit.fails, edit.with_bom, edit.is_document;
  twice_auto.
Qed.

Lemma timeStamp_twice : forall now d,
  edit.twice (edit.timeStamp now) d = edit.timeStamp now d.
Proof.
  intros now [b p cfg].
  unfold edit.timeStamp, edit.ok, edit.with_bom.
  twice_auto.
Qed.

(** With two readings of the clock, the second is the one that stays. *)
Lemma timeStamp_last_reading : forall now1 now2 d,
  ('(d1, _) <- edit.timeStamp now1 d ;; edit.timeStamp now2 d1) = edit.timeStamp now2 d.
Proof.
  intros now1 now2 [b p cfg].
  unfold edit.timeStamp, edit.ok, edit.with_bom. cbn.
  destruct (Doc_CreationInfo b); reflexivity.
Qed.

Lemma foundRefType_app_new : forall kind ref refs b,
  edit.foundRefType kind refs = Done b ->
  RefType ref = kind ->
  edit.foundRefType kind (refs ++ [Some ref]) = Done true.
Proof.
  intros kind ref. induction refs as [|r refs IH]; intros b Hf Hk.
  - cbn. rewrite Hk, String.eqb_refl. reflexivity.
  - destruct r as [x|]; [|discriminate Hf]. cbn in Hf |- *.
    destruct (edit.foundRefType kind refs) as [b'|] eqn:E; [|discriminate Hf].
    rewrite (IH b' eq_refl Hk). cbn. rewrite orb_true_r. reflexivity.
Qed.

Lemma extref_twice : forall kind ref d,
  RefType ref = kind ->
  edit.onMissing (edit.c d) = true ->
  ('(d1, _) <- edit.extref_update kind ref d ;; edit.extref_update kind ref d1)
  = edit.extref_update kind ref d.
Proof.
  intros kind ref [b [p|] cfg] Hk Hm; cbn in Hm; unfold edit.extref_update, edit.ok, edit.with_pkg;
    cbn; [|reflexivity].
  destruct (edit.foundRefType kind (PackageExternalReferences p)) as [found|] eqn:E; cbn;
    [|reflexivity].
  rewrite Hm. destruct found; cbn.
  - rewrite E. cbn. rewrite Hm. reflexivity.
  - rewrite (foundRefType_app_new kind ref _ _ E Hk). cbn. rewrite Hm. reflexivity.
Qed.

Lemma purl_twice : forall d,
  edit.onMissing (edit.c d) = true -> edit.twice edit.purl d = edit.purl d.
Proof.
  intros d Hm. unfold edit.twice, edit.purl.
  destruct (edit.shouldPurl (edit.c d)) eqn:Hs; cbn; [|rewrite Hs; reflexivity].
  destruct (edit.is_document d) eqn:Hd; cbn.
  - rewrite Hs. cbn. rewrite Hd. reflexivity.
  - rewrite <- (extref_twice "purl" (mkExtRef "PACKAGE-MANAGER" "purl" (edit.c_purl (edit.c d))) d eq_refl Hm) at 2.
    destruct d as [b [p|] cfg]; unfold edit.extref_update, edit.ok, edit.with_pkg, edit.is_document in *;
      cbn in *; [|reflexivity].
    destruct (edit.foundRefType "purl" (PackageExternalReferences p)) as [found|]; cbn;
      [|reflexivity].
    rewrite Hm. destruct found; cbn; rewrite Hs, Hd; reflexivity.
Qed.

Lemma cpe_twice : forall d,
  edit.onMissing (edit.c d) = true -> edit.twice edit.cpe d = edit.cpe d.
Proof.
  intros d Hm. unfold edit.twice, edit.cpe.
  destruct (edit.shouldCpe (edit.c d)) eqn:Hs; cbn; [|rewrite Hs; reflexivity].
  destruct (edit.is_document d) eqn:Hd; cbn.
  - rewrite Hs. cbn. rewrite Hd. reflexivity.
  - rewrite <- (extref_twice "cpe23Type" (mkExtRef "SECURITY" "cpe23Type" (edit.c_cpe (edit.c d))) d eq_refl Hm) at 2.
    destruct d as [b [p|] cfg]; unfold edit.extref_update, edit.ok, edit.with_pkg, edit.is_document in *;
      cbn in *; [|reflexivity].
    destruct (edit.foundRefType "cpe23Type" (PackageExternalReferences p)) as [found|]; cbn;
      [|reflexivity].
    rewrite Hm. destruct found; cbn; rewrite Hs, Hd; reflexivity.
Qed.

Lemma set_DataLicense_same : forall b, set_DataLicense (DataLicense b) b = b.
Proof. intros []. reflexivity. Qed.

Lemma licenses_twice : forall d,
  edit.onMissing (edit.c d) = true -> edit.twice licenses d = licenses d.
Proof.
  intros [b p cfg] Hm. cbn in Hm.
  unfold edit.twice, edit.licenses, edit.ok, edit.fails, edit.with_bom, edit.with_pkg,
    edit.is_document. cbn.
  destruct (edit.shouldLicenses cfg) eqn:Hs; cbn; [|rewrite Hs; reflexivity].
  rewrite Hm.
  destruct (String.eqb (edit.search_subject cfg) "document") eqn:Hd.
  - destruct (String.eqb (DataLicense b) "") eqn:E; cbn; rewrite Hs; cbn; rewrite Hm, Hd.
    + destruct (String.eqb (spdxConstructLicenses b cfg) "") eqn:E2; [|reflexivity].
      apply String.eqb_eq in E, E2.
      assert (Hb : set_DataLicense (spdxConstructLicenses b cfg) b = b).
      { rewrite E2, <- E. apply set_DataLicense_same. }
      rewrite !Hb. reflexivity.
    + rewrite E. reflexivity.
  - destruct p as [p|]; cbn; [|reflexivity].
    destruct (String.eqb (PackageLicenseConcluded p) "") eqn:E; cbn; rewrite Hs; cbn;
      rewrite Hm, Hd; cbn.
    + destruct (String.eqb (spdxConstructLicenses b cfg) ""); reflexivity.
    + rewrite E. reflexivity.
Qed.

(** [tools] under the missing policy, once everything it would add is
    there already. *)
Lemma stamp_present : forall cs t,
  existsb (fun e => String.eqb (Creator e) (Creator t)) (edit.stamp cs t) = true.
Proof.
  intros cs t. unfold edit.stamp, edit.spdxUniqueCreators.
  destruct (edit.creatorExists cs t) eqn:E; cbn [negb].
  - unfold edit.creatorExists in E. apply existsb_exists in E. destruct E as [x [Hx Hb]].
    apply existsb_exists. exists x. split; [exact Hx|].
    apply andb_true_iff in Hb. tauto.
  - cbn [filter].
    destruct (existsb (fun e => String.eqb (Creator e) (Creator t)) cs) eqn:E2; cbn [negb].
    + rewrite app_nil_r. exact E2.
    + rewrite existsb_app. cbn. rewrite String.eqb_refl. apply orb_true_r.
Qed.

Lemma stamp_fixed : forall cs t,
  existsb (fun e => String.eqb (Creator e) (Creator t)) cs = true ->
  edit.stamp cs t = cs.
Proof.
  intros cs t H. unfold edit.stamp, edit.spdxUniqueCreators.
  destruct (edit.creatorExists cs t); cbn [negb]; [reflexivity|].
  cbn [filter]. rewrite H. cbn [negb]. apply app_nil_r.
Qed.

Lemma present_app : forall s (cs ex : list common_Creator),
  existsb (fun e => String.eqb (Creator e) s) cs = true ->
  existsb (fun e => String.eqb (Creator e) s) (cs ++ ex) = true.
Proof.
  intros s cs ex H. rewrite existsb_app, H. reflexivity.
Qed.

Lemma fold_stamp_present : forall T cs t,
  In t T ->
  existsb (fun e => String.eqb (Creator e) (Creator t)) (fold_left edit.stamp T cs) = true.
Proof.
  induction T as [|a T IH]; intros cs t Hin; [destruct Hin|].
  cbn [fold_left]. destruct Hin as [->|Hin].
  - destruct (fold_stamp_extends T (edit.stamp cs t)) as [ex [-> _]].
    apply present_app, stamp_present.
  - apply IH, Hin.
Qed.

Lemma fold_stamp_fixed : forall T cs,
  (forall t, In t T -> existsb (fun e => String.eqb (Creator e) (Creator t)) cs = true) ->
  fold_left edit.stamp T cs = cs.
Proof.
  induction T as [|a T IH]; intros cs H; [reflexivity|].
  cbn [fold_left]. rewrite stamp_fixed by (apply H; left; reflexivity).
  apply IH. intros t Ht. apply H. right. exact Ht.
Qed.

Lemma toolsCreators_missing_twice : forall cs T,
  Forall (fun t => HasPrefix (Creator t) edit.SBOMASM = false) T ->
  edit.toolsCreators true (edit.toolsCreators true cs T) T = edit.toolsCreators true cs T.
Proof.
  intros cs T HT. unfold edit.toolsCreators.
  rewrite (find_none_of_Forall _ _ _ HT).
  set (X := fold_left edit.stamp T cs).
  assert (HX : forall t, In t T ->
             existsb (fun e => String.eqb (Creator e) (Creator t))
               (edit.stamp X edit.defaultTool) = true).
  { intros t Ht. destruct (stamp_extends X edit.defaultTool) as [ex [-> _]].
    apply present_app. apply fold_stamp_present, Ht. }
  rewrite (fold_stamp_fixed T _ HX).
  apply stamp_fixed, stamp_present.
Qed.

Lemma tools_twice : forall d,
  edit.onMissing (edit.c d) = true ->
  configOnly spdxConstructTools ->
  noSelfConfigured spdxConstructTools (edit.c d) ->
  edit.twice tools d = tools d.
Proof.
  intros [b p cfg] Hm Hco Hno. cbn in Hm, Hno.
  remember (spdxConstructTools b cfg) as T eqn:HeqT.
  assert (HT : forall b', spdxConstructTools b' cfg = T).
  { intros b'. rewrite HeqT. apply Hco. }
  assert (HnoT : Forall (fun t => HasPrefix (Creator t) edit.SBOMASM = false) T).
  { rewrite HeqT. apply Hno. }
  unfold edit.twice, edit.tools, edit.ok, edit.with_bom. cbn.
  rewrite Hm, !HT, (toolsCreators_missing_twice _ T HnoT).
  reflexivity.
Qed.

(** C8, as the code has it.  Under the missing policy every handler of
    the table other than [tools] gives, applied twice in succession, the
    outcome and the state it gives applied once ([timeStamp] for one
    reading of the clock); so does [tools] when its helper reads the
    configuration only and no configured tool carries the running tool's
    name. *)
Theorem missing_twice_is_once :
  forall (now : string) (d : edit.spdxEditDoc) (nm : string) (f : edit.handler),
    In (nm, f) (updateFuncs now) ->
    edit.onMissing (edit.c d) = true ->
    (nm = "tools" ->
     configOnly spdxConstructTools /\ noSelfConfigured spdxConstructTools (edit.c d)) ->
    edit.twice f d = f d.
Proof.
  intros now d nm f Hin Hm Htools. unfold edit.updateFuncs in Hin. cbn [In] in Hin.
  repeat match goal with
         | H : _ \/ _ |- _ => destruct H as [H|H]
         | H : (_, _) = (nm, f) |- _ => injection H as <- <-
         | H : False |- _ => destruct H
         end.
  - apply name_twice, Hm.
  - apply version_twice, Hm.
  - apply supplier_twice, Hm.
  - apply authors_twice, Hm.
  - apply purl_twice, Hm.
  - apply cpe_twice, Hm.
  - apply licenses_twice, Hm.
  - apply hashes_twice, Hm.
  - destruct (Htools eq_refl) as [Hco Hno]. apply tools_twice; assumption.
  - apply copyright_twice, Hm.
  - apply lifeCycles_twice, Hm.
  - apply description_twice, Hm.
  - apply repository_twice, Hm.
  - apply typ_twice, Hm.
  - apply timeStamp_twice.
Qed.

(** *** When [update] runs to its end *)

Lemma runFuncs_completes : forall (P : edit.spdxEditDoc -> Prop) fs,
  Forall (fun nf => completesOn P (snd nf)) fs ->
  forall d, P d ->
    exists d' log, edit.runFuncs fs d = Done (d', log)
                   /\ map fst log = map fst fs /\ P d'.
Proof.
  intros P fs H. induction H as [|[nm f] fs Hf _ IH]; intros d Hd; cbn.
  - exists d, []. auto.
  - cbn [snd] in Hf. destruct (Hf d Hd) as (d1 & e & -> & Hd1). cbn.
    destruct (IH d1 Hd1) as (d' & log & -> & Hl & Hd'). cbn.
    exists d', ((nm, e) :: log). cbn. rewrite Hl. auto.
Qed.

Ltac on_document :=
  intros [b p cfg] Hd; unfold documentSubject, edit.is_document in *; cbn in Hd;
  unfold edit.pkg_scalar, edit.extref_update, edit.is_document, edit.ok, edit.fails,
    edit.with_bom, edit.with_pkg;
  cbn; rewrite ?Hd; cbn;
  repeat case_step; cbn; do 2 eexists; (split; [reflexivity|exact Hd]).

Lemma handlers_complete_on_document : forall now,
  Forall (fun nf => completesOn documentSubject (snd nf)) (updateFuncs now).
Proof.
  intros now. unfold edit.updateFuncs. repeat constructor; cbn [snd].
  - unfold edit.name. on_document.
  - unfold edit.version. on_document.
  - unfold edit.supplier. on_document.
  - unfold edit.authors. on_document.
  - unfold edit.purl. on_document.
  - unfold edit.cpe. on_document.
  - unfold edit.licenses. on_document.
  - unfold edit.hashes. on_document.
  - unfold edit.tools. on_document.
  - unfold edit.copyright. on_document.
  - unfold edit.lifeCycles. on_document.
  - unfold edit.description. on_document.
  - unfold edit.repository. on_document.
  - unfold edit.typ. on_document.
  - unfold edit.timeStamp. on_document.
Qed.

(** The part of C2 that holds: when the subject is the document, every
    handler of the table runs, in table order, whether or not a
    component is there; the fields that are for components only end in
    the not-supported outcome or are not configured. *)
Lemma update_completes_on_document : forall now d,
  documentSubject d ->
  exists d' log,
    update now d = Done (d', log)
    /\ map fst log = map fst (updateFuncs now)
    /\ documentSubject d'.
Proof.
  intros now d Hd. apply runFuncs_completes; [apply handlers_complete_on_document|exact Hd].
Qed.

Lemma reject_noNil : forall kind refs,
  noNilRef refs ->
  exists kept, edit.rejectLowerRefType kind refs = Done kept /\ noNilRef kept.
Proof.
  intros kind refs H. induction H as [|r rest Hr _ IH].
  - exists []. split; [reflexivity|constructor].
  - destruct r as [x|]; [|contradiction]. destruct IH as [kept [IH Hk]].
    cbn. rewrite IH. cbn.
    destruct (String.eqb (ToLower (RefType x)) kind).
    + exists kept. auto.
    + exists (Some x :: kept). split; [reflexivity|]. constructor; [discriminate|exact Hk].
Qed.

Lemma noNilRef_add : forall refs ref, noNilRef refs -> noNilRef (refs ++ [Some ref]).
Proof.
  intros refs ref H. apply Forall_app. split; [exact H|].
  constructor; [discriminate|constructor].
Qed.

Lemma extref_update_ready : forall kind ref,
  completesOn componentReady (edit.extref_update kind ref).
Proof.
  intros kind ref [b p cfg] [q [Hq Hn]]. cbn in Hq. subst p.
  unfold edit.extref_update, edit.ok, edit.with_pkg. cbn.
  destruct (foundRefType_noNil kind _ Hn) as [found ->]. cbn.
  destruct (reject_noNil kind _ Hn) as [kept [-> Hk]]. cbn.
  destruct (edit.onMissing cfg); [destruct found; cbn|destruct (edit.onAppend cfg)];
    do 2 eexists; (split; [reflexivity|]); eexists; (split; [reflexivity|]); cbn;
    auto using noNilRef_add.
Qed.

Ltac on_component :=
  intros [b p cfg] [q [Hq Hn]]; cbn in Hq; subst p;
  unfold edit.pkg_scalar, edit.is_document, edit.ok, edit.fails,
    edit.with_bom, edit.with_pkg;
  cbn;
  repeat case_step; cbn; do 2 eexists; (split; [reflexivity|]);
  eexists; (split; [reflexivity|exact Hn]).

Lemma handlers_complete_on_component : forall now,
  Forall (fun nf => completesOn componentReady (snd nf)) (updateFuncs now).
Proof.
  intros now. unfold edit.updateFuncs. repeat constructor; cbn [snd].
  - unfold edit.name. on_component.
  - unfold edit.version. on_component.
  - unfold edit.supplier. on_component.
  - unfold edit.authors. on_component.
  - intros d Hd. unfold edit.purl.
    destruct (negb (edit.shouldPurl (edit.c d))); [exists d; eexists; split; [reflexivity|exact Hd]|].
    destruct (edit.is_document d); [exists d; eexists; split; [reflexivity|exact Hd]|].
    apply extref_update_ready, Hd.
  - intros d Hd. unfold edit.cpe.
    destruct (negb (edit.shouldCpe (edit.c d))); [exists d; eexists; split; [reflexivity|exact Hd]|].
    destruct (edit.is_document d); [exists d; eexists; split; [reflexivity|exact Hd]|].
    apply extref_update_ready, Hd.
  - unfold edit.licenses. on_component.
  - unfold edit.hashes. on_component.
  - unfold edit.tools. on_component.
  - unfold edit.copyright. on_component.
  - unfold edit.lifeCycles. on_component.
  - unfold edit.description. on_component.
  - unfold edit.repository. on_component.
  - unfold edit.typ. on_component.
  - unfold edit.timeStamp. on_component.
Qed.

(** The other part of C2 that holds: when a component was resolved (and
    none of its external references is nil), every handler of the table
    runs, in table order, whatever the subject and the configuration. *)
Lemma update_completes_on_component : forall now d,
  componentReady d ->
  exists d' log,
    update now d = Done (d', log)
    /\ map fst log = map fst (updateFuncs now)
    /\ componentReady d'.
Proof.
  intros now d Hd. apply runFuncs_completes; [apply handlers_complete_on_component|exact Hd].
Qed.

End EditProperties.

Lemma update_panics_without_component_witness :
  edit.pkg doc_unresolved = None
  /\ edit.name doc_unresolved = Panic
  /\ edit.update (fun _ _ => "") (fun _ _ => None) (fun _ _ => []) (fun _ => "")
       "2024-01-01T00:00:00Z" doc_unresolved = Panic.
Proof.
  split; [reflexivity|].
  apply update_panics_without_component; reflexivity.
Defined.



(** C8 as stated fails on the code for [tools]: with a configured tool
    that carries the running tool's name, each run first removes every
    entry with that name and then adds the configured tools that are
    missing, so the second run moves the entry behind the others. *)
Lemma tools_missing_twice_differs :
  In ("tools", edit.tools selfTools)
     (edit.updateFuncs noLicense noHashes selfTools noTypes "2024-01-01T00:00:00Z")
  /\ edit.onMissing (edit.c doc_no_creators) = true
  /\ creatorsAfter (edit.tools selfTools doc_no_creators)
     = [mkCreator "sbomasm-1.0.0" "Tool"; mkCreator "syft-1.4.1" "Tool"]
  /\ creatorsAfter (edit.twice (edit.tools selfTools) doc_no_creators)
     = [mkCreator "syft-1.4.1" "Tool"; mkCreator "sbomasm-1.0.0" "Tool"]
  /\ edit.twice (edit.tools selfTools) doc_no_creators
     <> edit.tools selfTools doc_no_creators.
Proof.
  split; [do 8 right; left; reflexivity|].
  split; [reflexivity|]. split; [reflexivity|]. split; [reflexivity|].
  intros H. apply (f_equal creatorsAfter) in H. vm_compute in H. discriminate H.
Qed.

Lemma missing_twice_is_once_witness :
  edit.twice (edit.tools otherTools) doc_no_creators = edit.tools otherTools doc_no_creators.
Proof.
  apply (missing_twice_is_once noLicense noHashes otherTools noTypes
           "2024-01-01T00:00:00Z" doc_no_creators "tools" (edit.tools otherTools)).
  - do 8 right. left. reflexivity.
  - reflexivity.
  - intros _. split.
    + intros b b' cfg. reflexivity.
    + intros b. repeat constructor.
Defined.

(* ------------------------------------------------------------------ *)
(** * Properties of the merge engine *)

(** ** The license-list version *)

Section LicenseListVersion.

Variable Version : Type.
Variable NewVersion : string -> option Version.
Variable LessThan : Version -> Version -> bool.
Variable VersionString : Version -> string.

Local Abbreviation finalLicVersion :=
  (assemble.finalLicVersion Version NewVersion LessThan VersionString).

Lemma Uniq_from_In : forall l seen x,
  In x (assemble.Uniq_from seen l) <-> In x l /\ ~ In x seen.
Proof.
  induction l as [|y l IH]; intros seen x; cbn.
  - tauto.
  - destruct (existsb (String.eqb y) seen) eqn:E.
    + apply existsb_exists in E. destruct E as [z [Hz Hyz]].
      apply String.eqb_eq in Hyz. subst z.
      rewrite IH. split.
      * tauto.
      * intros [[->|Hx] Hn]; [contradiction|tauto].
    + assert (Hy : ~ In y seen).
      { intros Hy. assert (existsb (String.eqb y) seen = true).
        { apply existsb_exists. exists y. split; [exact Hy|apply String.eqb_refl]. }
        congruence. }
      cbn. rewrite IH. cbn. split.
      * intros [->|[Hx Hn]]; [tauto|]. split; [tauto|]. intros H. apply Hn. right. exact H.
      * intros [[->|Hx] Hn]; [tauto|].
        destruct (String.eqb_spec y x) as [->|Hne]; [tauto|].
        right. split; [exact Hx|]. intros [H|H]; [contradiction|contradiction].
Qed.

Lemma Uniq_In : forall l x, In x (assemble.Uniq l) <-> In x l.
Proof.
  intros l x. unfold assemble.Uniq. rewrite Uniq_from_In. cbn. tauto.
Qed.

Lemma two_members_length : forall (l : list string) x y,
  In x l -> In y l -> x <> y -> 1 < length l.
Proof.
  intros [|a [|b l]] x y Hx Hy Hne; cbn in *.
  - destruct Hx.
  - destruct Hx as [<-|[]], Hy as [<-|[]]. contradiction.
  - lia.
Qed.

Lemma parseAll_panics : forall l x,
  In x l -> NewVersion x = None -> assemble.parseAll Version NewVersion l = Panic.
Proof.
  induction l as [|y l IH]; intros x Hin Hx; [destruct Hin|].
  cbn. destruct Hin as [->|Hin].
  - rewrite Hx. reflexivity.
  - destruct (NewVersion y); [|reflexivity].
    rewrite (IH x Hin Hx). reflexivity.
Qed.

(** C3 on the code.  The candidates are the distinct version strings of
    the inputs with the empty string among them: an input without a
    version contributes the empty string, which is not dropped.  When
    some input has a version and some other has none, there are two
    candidates, the empty string goes to [semver.NewVersion], and the
    merge panics, whatever the number of distinct versions. *)
Theorem finalLicVersion_unversioned_input_panics :
  forall (ins : list Document) (v : string),
    NewVersion "" = None ->
    In "" (map assemble.licenseListVersionOf ins) ->
    In v (map assemble.licenseListVersionOf ins) ->
    v <> "" ->
    finalLicVersion ins = Panic.
Proof.
  intros ins v Hempty H0 Hv Hne. unfold assemble.finalLicVersion.
  set (lVersions := assemble.Uniq (map assemble.licenseListVersionOf ins)).
  assert (H0' : In "" lVersions) by (apply Uniq_In, H0).
  assert (Hv' : In v lVersions) by (apply Uniq_In, Hv).
  assert (Hlen : 1 < length lVersions) by (exact (two_members_length _ _ _ Hv' H0' Hne)).
  apply Nat.ltb_lt in Hlen. rewrite Hlen.
  rewrite (parseAll_panics _ _ H0' Hempty). reflexivity.
Qed.

Lemma Uniq_from_NoDup : forall l seen, NoDup (assemble.Uniq_from seen l).
Proof.
  induction l as [|y l IH]; intros seen; cbn.
  - constructor.
  - destruct (existsb (String.eqb y) seen); [apply IH|].
    constructor; [|apply IH].
    intros H. apply Uniq_from_In in H. destruct H as [_ H]. apply H. left. reflexivity.
Qed.

(** What the selection does when no input has a version. *)
Lemma finalLicVersion_no_version :
  forall ins,
    (forall d, In d ins -> assemble.licenseListVersionOf d = "") ->
    finalLicVersion ins = Done "3.19".
Proof.
  intros ins H. unfold assemble.finalLicVersion.
  remember (assemble.Uniq (map assemble.licenseListVersionOf ins)) as lVersions eqn:E.
  assert (Hall : forall x, In x lVersions -> x = "").
  { intros x Hx. rewrite E in Hx. apply Uniq_In, in_map_iff in Hx.
    destruct Hx as [d [<- Hd]]. apply H, Hd. }
  assert (Hnd : NoDup lVersions) by (rewrite E; apply Uniq_from_NoDup).
  destruct lVersions as [|a [|b l]]; cbn.
  - reflexivity.
  - rewrite (Hall a) by (left; reflexivity). reflexivity.
  - exfalso. inversion Hnd as [|? ? Hn _]. apply Hn. left.
    rewrite (Hall a) by (left; reflexivity).
    rewrite (Hall b) by (right; left; reflexivity). reflexivity.
Qed.

(** What the selection does when every input has the same version. *)
Lemma finalLicVersion_one_version :
  forall ins v,
    ins <> [] ->
    (forall d, In d ins -> assemble.licenseListVersionOf d = v) ->
    assemble.notBlank v = true ->
    finalLicVersion ins = Done v.
Proof.
  intros ins v Hne H Hb. unfold assemble.finalLicVersion.
  assert (E : assemble.Uniq (map assemble.licenseListVersionOf ins) = [v]).
  { destruct ins as [|d ins]; [contradiction|].
    unfold assemble.Uniq. cbn. rewrite (H d) by (left; reflexivity). f_equal.
    assert (Hall : forall x, In x (map assemble.licenseListVersionOf ins) -> x = v).
    { intros x Hx. apply in_map_iff in Hx. destruct Hx as [e [<- He]]. apply H. right. exact He. }
    clear H Hne. induction (map assemble.licenseListVersionOf ins) as [|y ys IH]; cbn.
    - reflexivity.
    - rewrite (Hall y) by (left; reflexivity). rewrite String.eqb_refl. cbn.
      apply IH. intros x Hx. apply Hall. right. exact Hx. }
  rewrite E. cbn. rewrite Hb. reflexivity.
Qed.

(** *** More than one candidate *)

Lemma parseAll_Done : forall l,
  (forall s, In s l -> NewVersion s <> None) ->
  exists vs, assemble.parseAll Version NewVersion l = Done vs
             /\ (forall v, In v vs <-> exists s, In s l /\ NewVersion s = Some v).
Proof.
  induction l as [|s l IH]; intros H; cbn.
  - exists []. split; [reflexivity|]. intros v. split; [intros []|intros [s [[] _]]].
  - destruct (NewVersion s) as [v0|] eqn:E.
    + destruct IH as [vs [-> Hvs]]; [intros s' Hs'; apply H; right; exact Hs'|].
      cbn. exists (v0 :: vs). split; [reflexivity|]. intros v. cbn. rewrite Hvs. split.
      * intros [<-|[s' [Hs' E']]]; [exists s; auto|exists s'; auto].
      * intros [s' [[<-|Hs'] E']]; [left; congruence|right; exists s'; auto].
    + exfalso. apply (H s); [left; reflexivity|exact E].
Qed.

Section Order.

Hypothesis LessThan_irrefl : forall v, LessThan v v = false.
Hypothesis LessThan_trans :
  forall u v x, LessThan u v = true -> LessThan v x = true -> LessThan u x = true.

Lemma insertVersion_In : forall v l y,
  In y (assemble.insertVersion Version LessThan v l) <-> v = y \/ In y l.
Proof.
  intros v. induction l as [|x l IH]; intros y; cbn.
  - tauto.
  - destruct (LessThan v x); cbn.
    + tauto.
    + rewrite IH. tauto.
Qed.

Lemma insertVersion_lowestFirst : forall v l,
  lowestFirst LessThan l -> lowestFirst LessThan (assemble.insertVersion Version LessThan v l).
Proof.
  intros v [|x l] H; cbn.
  - intros y [<-|[]]. apply LessThan_irrefl.
  - destruct (LessThan v x) eqn:E; cbn.
    + intros y [<-|Hy]; [apply LessThan_irrefl|].
      destruct (LessThan y v) eqn:E2; [|reflexivity].
      rewrite <- (H y Hy). symmetry. exact (LessThan_trans _ _ _ E2 E).
    + intros y [<-|Hy]; [apply LessThan_irrefl|].
      apply insertVersion_In in Hy. destruct Hy as [<-|Hy]; [exact E|].
      apply H. right. exact Hy.
Qed.

Lemma sortVersions_spec : forall l,
  lowestFirst LessThan (assemble.sortVersions Version LessThan l)
  /\ forall y, In y (assemble.sortVersions Version LessThan l) <-> In y l.
Proof.
  intros l. unfold assemble.sortVersions.
  assert (G : forall l acc, lowestFirst LessThan acc ->
            lowestFirst LessThan
              (fold_left (fun acc v => assemble.insertVersion Version LessThan v acc) l acc)
            /\ forall y,
                 In y (fold_left (fun acc v => assemble.insertVersion Version LessThan v acc) l acc)
                 <-> In y acc \/ In y l).
  { clear l. induction l as [|v l IH]; intros acc Hacc; cbn.
    - split; [exact Hacc|]. intros y. tauto.
    - destruct (IH _ (insertVersion_lowestFirst v acc Hacc)) as [I1 I2].
      split; [exact I1|]. intros y. rewrite I2, insertVersion_In. tauto. }
  destruct (G l [] I) as [G1 G2]. split; [exact G1|].
  intros y. rewrite G2. cbn. tauto.
Qed.

(** The part of C3 on several candidates that holds: when two or more
    distinct strings are candidates and all of them parse,
    the selection returns what [Version.String] prints for a lowest of
    the parsed versions. *)
Lemma finalLicVersion_lowest : forall ins,
  1 < length (assemble.Uniq (map assemble.licenseListVersionOf ins)) ->
  (forall s, In s (map assemble.licenseListVersionOf ins) -> NewVersion s <> None) ->
  exists s v0,
    In s (map assemble.licenseListVersionOf ins)
    /\ NewVersion s = Some v0
    /\ finalLicVersion ins = Done (VersionString v0)
    /\ forall s' v', In s' (map assemble.licenseListVersionOf ins) ->
                     NewVersion s' = Some v' -> LessThan v' v0 = false.
Proof.
  intros ins Hlen Hparse. unfold assemble.finalLicVersion.
  apply Nat.ltb_lt in Hlen. rewrite Hlen.
  destruct (parseAll_Done (assemble.Uniq (map assemble.licenseListVersionOf ins)))
    as [vs [-> Hvs]].
  { intros s Hs. apply Hparse, Uniq_In, Hs. }
  cbn. destruct (sortVersions_spec vs) as [Hlow Hin].
  destruct (assemble.sortVersions Version LessThan vs) as [|v0 rest] eqn:E.
  - exfalso. apply Nat.ltb_lt in Hlen.
    destruct (assemble.Uniq (map assemble.licenseListVersionOf ins)) as [|s l] eqn:E2;
      [cbn in Hlen; lia|].
    destruct (NewVersion s) as [v|] eqn:E3.
    + assert (Hv : In v vs) by (apply Hvs; exists s; split; [left; reflexivity|exact E3]).
      apply Hin in Hv. destruct Hv.
    + apply (Hparse s); [|exact E3]. apply Uniq_In. rewrite E2. left. reflexivity.
  - cbn. assert (Hv0 : In v0 vs) by (apply Hin; left; reflexivity).
    apply Hvs in Hv0. destruct Hv0 as [s [Hs Es]].
    exists s, v0. split; [apply Uniq_In, Hs|]. split; [exact Es|]. split; [reflexivity|].
    intros s' v' Hs' Es'. apply Hlow. apply Hin, Hvs. exists s'. split; [apply Uniq_In, Hs'|exact Es'].
Qed.

End Order.

End LicenseListVersion.

Lemma finalLicVersion_unversioned_input_panics_witness :
  assemble.finalLicVersion numVersion numNewVersion numLessThan numString
    [doc_with_version "3.21"; doc_unversioned] = Panic.
Proof.
  apply (finalLicVersion_unversioned_input_panics numVersion numNewVersion numLessThan
           numString [doc_with_version "3.21"; doc_unversioned] "3.21").
  - reflexivity.
  - right. left. reflexivity.
  - left. reflexivity.
  - discriminate.
Defined.

(** The three runs the specification lists, on the numeric instance:
    two versions give the lower one in the three-number form that
    [Version.String] prints. *)
Example finalLicVersion_runs :
  assemble.finalLicVersion numVersion numNewVersion numLessThan numString [] = Done "3.19"
  /\ assemble.finalLicVersion numVersion numNewVersion numLessThan numString
       [doc_with_version "3.21"] = Done "3.21"
  /\ assemble.finalLicVersion numVersion numNewVersion numLessThan numString
       [doc_with_version "3.19"; doc_with_version "3.20"] = Done "3.19.0"
  /\ assemble.finalLicVersion numVersion numNewVersion numLessThan numString
       [doc_with_version "3.20"; doc_with_version "3.19"] = Done "3.19.0".
Proof.
  repeat split; vm_compute; reflexivity.
Qed.

(** ** The hierarchical merge *)

Section MergeProperties.

Variable spdx_hash_algos : string -> string.
Variable cloneComp : option Package -> option Package.

Local Abbreviation setupPrimaryComp := (assemble.setupPrimaryComp spdx_hash_algos).
Local Abbreviation ingestPackage := (assemble.ingestPackage cloneComp).
Local Abbreviation ingestPackages := (assemble.ingestPackages cloneComp).
Local Abbreviation ingestDoc := (assemble.ingestDoc cloneComp).
Local Abbreviation ingestDocs := (assemble.ingestDocs cloneComp).
Local Abbreviation hierarchicalMerge :=
  (assemble.hierarchicalMerge spdx_hash_algos cloneComp).

(** C10.  Whatever the settings, the root component that
    [setupPrimaryComp] builds has the download location NOASSERTION and
    the analyzed-files flag false: both are assigned constants and no
    later assignment of the function touches them. *)
Theorem root_location_and_files_analyzed_fixed :
  forall m : assemble.merge,
    PackageDownloadLocation (setupPrimaryComp m) = "NOASSERTION"
    /\ FilesAnalyzed (setupPrimaryComp m) = false.
Proof.
  intros m. unfold assemble.setupPrimaryComp. cbv zeta.
  repeat match goal with
         | |- context [if ?b then _ else _] => destruct b
         end; split; reflexivity.
Qed.

(** *** Rewriting the ends of relationships *)

Lemma sameButEnds_refl : forall r, sameButEnds r r.
Proof. intros r. unfold sameButEnds. tauto. Qed.

Lemma sameButEnds_trans : forall r1 r2 r3,
  sameButEnds r1 r2 -> sameButEnds r2 r3 -> sameButEnds r1 r3.
Proof.
  unfold sameButEnds. intros r1 r2 r3 H1 H2.
  destruct H1 as (A1 & A2 & A3 & A4 & A5 & A6), H2 as (B1 & B2 & B3 & B4 & B5 & B6).
  repeat split; congruence.
Qed.

Lemma retarget_sameButEnds : forall old new r,
  sameButEnds r (assemble.retarget old new r).
Proof.
  intros old new [[da ea sa] [db eb sb] k cm]. unfold assemble.retarget, sameButEnds. cbn.
  destruct (String.eqb ea old); cbn; destruct (String.eqb eb old); cbn; tauto.
Qed.

Lemma retarget_endA : forall old new r,
  ElementRefID (RefA (assemble.retarget old new r))
  = if String.eqb (ElementRefID (RefA r)) old then new else ElementRefID (RefA r).
Proof.
  intros old new [[da ea sa] [db eb sb] k cm]. unfold assemble.retarget. cbn.
  destruct (String.eqb ea old); cbn; destruct (String.eqb eb old); reflexivity.
Qed.

Lemma retarget_endB : forall old new r,
  ElementRefID (RefB (assemble.retarget old new r))
  = if String.eqb (ElementRefID (RefB r)) old then new else ElementRefID (RefB r).
Proof.
  intros old new [[da ea sa] [db eb sb] k cm]. unfold assemble.retarget. cbn.
  destruct (String.eqb ea old); cbn; destruct (String.eqb eb old); reflexivity.
Qed.

Lemma retarget_idem : forall old new r,
  assemble.retarget old new (assemble.retarget old new r) = assemble.retarget old new r.
Proof.
  intros old new [[da ea sa] [db eb sb] k cm]. unfold assemble.retarget. cbn.
  destruct (String.eqb ea old) eqn:Ea; cbn;
    destruct (String.eqb eb old) eqn:Eb; cbn;
    rewrite ?Ea, ?Eb; cbn; rewrite ?Ea, ?Eb;
    destruct (String.eqb new old) eqn:En; cbn; rewrite ?Ea, ?Eb, ?En; reflexivity.
Qed.

Lemma retargetAll_counters : forall old new rels w,
  assemble.nextloc (assemble.retargetAll old new rels w) = assemble.nextloc w
  /\ assemble.uuids (assemble.retargetAll old new rels w) = assemble.uuids w
  /\ assemble.nextuuid (assemble.retargetAll old new rels w) = assemble.nextuuid w.
Proof.
  intros old new. induction rels as [|[l|] rels IH]; intros w; cbn.
  - tauto.
  - apply (IH (assemble.store l _ w)).
  - apply IH.
Qed.

Lemma retargetAll_out : forall old new rels w l,
  ~ In (Some l) rels ->
  assemble.cells (assemble.retargetAll old new rels w) l = assemble.cells w l.
Proof.
  intros old new. induction rels as [|[l'|] rels IH]; intros w l Hn; cbn.
  - reflexivity.
  - rewrite IH by (intros H; apply Hn; right; exact H). cbn.
    destruct (Nat.eqb_spec l l') as [->|_]; [|reflexivity].
    exfalso. apply Hn. left. reflexivity.
  - apply IH. intros H. apply Hn. right. exact H.
Qed.

Lemma In_Some_dec : forall (l : loc) (rels : list (option loc)),
  {In (Some l) rels} + {~ In (Some l) rels}.
Proof.
  intros l rels. apply in_dec. decide equality. apply Nat.eq_dec.
Qed.

Lemma retargetAll_in : forall old new rels w l,
  In (Some l) rels ->
  assemble.cells (assemble.retargetAll old new rels w) l
  = assemble.retarget old new (assemble.cells w l).
Proof.
  intros old new. induction rels as [|[l'|] rels IH]; intros w l Hin; cbn.
  - destruct Hin.
  - destruct (In_Some_dec l rels) as [Hr|Hr].
    + rewrite (IH _ l Hr). cbn.
      destruct (Nat.eqb_spec l l') as [->|_]; [apply retarget_idem|reflexivity].
    + rewrite (retargetAll_out _ _ _ _ _ Hr). cbn.
      destruct (Nat.eqb_spec l l') as [->|Hne]; [reflexivity|].
      destruct Hin as [H|H]; [injection H as ->; contradiction|contradiction].
  - destruct Hin as [H|H]; [discriminate H|]. apply IH, H.
Qed.

(** *** One turn of the package loop *)

Lemma afterDescribed_props : forall root doc old w,
  let w' := afterDescribed root doc old w in
  let new := newid w (assemble.nextuuid w) in
  assemble.nextloc w' = S (assemble.nextloc w)
  /\ assemble.uuids w' = assemble.uuids w
  /\ assemble.nextuuid w' = S (assemble.nextuuid w)
  /\ (forall l, l < assemble.nextloc w -> In (Some l) (Relationships doc) ->
        assemble.cells w' l = assemble.retarget old new (assemble.cells w l))
  /\ (forall l, l < assemble.nextloc w -> ~ In (Some l) (Relationships doc) ->
        assemble.cells w' l = assemble.cells w l)
  /\ (~ In (Some (assemble.nextloc w)) (Relationships doc) ->
        assemble.cells w' (assemble.nextloc w)
        = mkRelationship (MakeDocElementID "" root) (MakeDocElementID "" new)
            assemble.TypeRelationshipContains "").
Proof.
  intros root doc old w w' new. unfold w', afterDescribed.
  match goal with
  | |- context [assemble.retargetAll ?o ?n ?r ?w0] =>
      destruct (retargetAll_counters o n r w0) as (C1 & C2 & C3)
  end.
  split; [rewrite C1; reflexivity|]. split; [rewrite C2; reflexivity|].
  split; [rewrite C3; reflexivity|]. split; [|split].
  - intros l Hl Hin. rewrite (retargetAll_in _ _ _ _ _ Hin). cbn.
    destruct (Nat.eqb_spec l (assemble.nextloc w)); [lia|reflexivity].
  - intros l Hl Hin. rewrite (retargetAll_out _ _ _ _ _ Hin). cbn.
    destruct (Nat.eqb_spec l (assemble.nextloc w)); [lia|reflexivity].
  - intros Hin. rewrite (retargetAll_out _ _ _ _ _ Hin). cbn.
    rewrite Nat.eqb_refl. reflexivity.
Qed.

(** The two ways a turn can end without a panic. *)
Lemma ingestPackage_cases : forall root doc descRels pkg a a',
  ingestPackage root doc descRels pkg a = Done a' ->
  (assemble.acc_world a' = assemble.acc_world a
   /\ assemble.acc_deps a' = assemble.acc_deps a
   /\ (assemble.isDescribedPackage (assemble.acc_world a) pkg descRels = false
       \/ cloneComp pkg = None)
   /\ (a' = a \/ exists cp, cloneComp pkg = Some cp
                            /\ assemble.acc_pkgs a' = assemble.acc_pkgs a ++ [Some cp]))
  \/ (exists p cp,
        pkg = Some p /\ cloneComp pkg = Some cp
        /\ assemble.describes (assemble.acc_world a) (PackageSPDXIdentifier p) descRels = true
        /\ assemble.acc_world a'
           = afterDescribed root doc (PackageSPDXIdentifier p) (assemble.acc_world a)
        /\ assemble.acc_deps a'
           = assemble.acc_deps a ++ [Some (assemble.nextloc (assemble.acc_world a))]
        /\ assemble.acc_pkgs a'
           = assemble.acc_pkgs a
             ++ [Some (set_PackageSPDXIdentifier
                         (newid (assemble.acc_world a)
                            (assemble.nextuuid (assemble.acc_world a))) cp)]).
Proof.
  intros root doc descRels pkg a a' H. unfold assemble.ingestPackage in H.
  destruct (cloneComp pkg) as [cp|] eqn:Hc.
  - destruct (assemble.isDescribedPackage (assemble.acc_world a) pkg descRels) eqn:Hd.
    + destruct pkg as [p|]; [|discriminate Hd]. cbn in H, Hd.
      injection H as <-. right. exists p, cp. cbn. repeat split; auto.
    + injection H as <-. left. cbn. repeat split; auto. right. exists cp. auto.
  - destruct pkg as [p|]; [|discriminate H]. cbn in H. injection H as <-.
    left. repeat split; auto.
Qed.

Lemma extends_refl : forall T a, extends T a a.
Proof.
  intros T a. unfold extends. cbv zeta.
  split; [lia|]. split; [reflexivity|]. split; [lia|].
  split; [intros; apply sameButEnds_refl|].
  split; [intros; left; reflexivity|]. split; [intros; left; reflexivity|].
  split; [reflexivity|].
  exists []. split; [symmetry; apply app_nil_r|constructor].
Qed.

Lemma extends_trans : forall T a1 a2 a3,
  extends T a1 a2 -> extends T a2 a3 -> extends T a1 a3.
Proof.
  intros T a1 a2 a3 H1 H2. unfold extends in *. cbv zeta in *.
  destruct H1 as (N1 & U1 & K1 & S1 & A1 & B1 & F1 & ex1 & D1 & X1).
  destruct H2 as (N2 & U2 & K2 & S2 & A2 & B2 & F2 & ex2 & D2 & X2).
  split; [lia|]. split; [congruence|]. split; [lia|].
  split; [intros l Hl; eapply sameButEnds_trans; [apply S1|apply S2]; lia|].
  split; [|split; [|split]].
  - intros l Hl. destruct (A2 l ltac:(lia)) as [E2|[k [Hk E2]]].
    + destruct (A1 l Hl) as [E1|[k [Hk E1]]].
      * left. congruence.
      * right. exists k. split; [lia|congruence].
    + right. exists k. split; [lia|]. rewrite E2. unfold newid. rewrite U1. reflexivity.
  - intros l Hl. destruct (B2 l ltac:(lia)) as [E2|[k [Hk E2]]].
    + destruct (B1 l Hl) as [E1|[k [Hk E1]]].
      * left. congruence.
      * right. exists k. split; [lia|congruence].
    + right. exists k. split; [lia|]. rewrite E2. unfold newid. rewrite U1. reflexivity.
  - intros l Hl Ht. rewrite F2 by (try lia; exact Ht). apply F1; assumption.
  - exists (ex1 ++ ex2). split; [rewrite D2, D1, app_assoc; reflexivity|].
    apply Forall_app. split.
    + eapply Forall_impl; [|exact X1]. cbn. intros r [l [-> Hl]]. exists l. split; [reflexivity|lia].
    + eapply Forall_impl; [|exact X2]. cbn. intros r [l [-> Hl]]. exists l. split; [reflexivity|lia].
Qed.

Lemma extends_mono : forall (T T' : loc -> Prop) a a',
  (forall l, T l -> T' l) -> extends T a a' -> extends T' a a'.
Proof.
  intros T T' a a' HT H. unfold extends in *. cbv zeta in *.
  destruct H as (N1 & U1 & K1 & S1 & A1 & B1 & F1 & D1).
  repeat (split; [assumption|]). split; [|assumption].
  intros l Hl Ht. apply F1; [assumption|]. intros H. apply Ht, HT, H.
Qed.

Lemma ingestPackage_extends : forall root doc descRels pkg a a',
  ingestPackage root doc descRels pkg a = Done a' ->
  extends (fun l => In (Some l) (Relationships doc)) a a'.
Proof.
  intros root doc descRels pkg a a' H.
  destruct (ingestPackage_cases _ _ _ _ _ _ H) as [(Hw & Hd & _)|(p & cp & _ & _ & _ & Hw & Hd & _)].
  - unfold extends. cbv zeta. rewrite Hw, Hd.
    split; [lia|]. split; [reflexivity|]. split; [lia|].
    split; [intros; apply sameButEnds_refl|].
    split; [intros; left; reflexivity|]. split; [intros; left; reflexivity|].
    split; [reflexivity|].
    exists []. split; [symmetry; apply app_nil_r|constructor].
  - unfold extends. cbv zeta. rewrite Hw, Hd.
    destruct (afterDescribed_props root doc (PackageSPDXIdentifier p) (assemble.acc_world a))
      as (P1 & P2 & P3 & P4 & P5 & _).
    rewrite P1, P2, P3.
    split; [lia|]. split; [reflexivity|]. split; [lia|].
    split; [|split; [|split; [|split]]].
    + intros l Hl. destruct (In_Some_dec l (Relationships doc)) as [Hi|Hi].
      * rewrite (P4 l Hl Hi). apply retarget_sameButEnds.
      * rewrite (P5 l Hl Hi). apply sameButEnds_refl.
    + intros l Hl. unfold endA. destruct (In_Some_dec l (Relationships doc)) as [Hi|Hi].
      * rewrite (P4 l Hl Hi), retarget_endA.
        destruct (String.eqb _ _); [|left; reflexivity].
        right. exists (assemble.nextuuid (assemble.acc_world a)). split; [lia|reflexivity].
      * rewrite (P5 l Hl Hi). left. reflexivity.
    + intros l Hl. unfold endB. destruct (In_Some_dec l (Relationships doc)) as [Hi|Hi].
      * rewrite (P4 l Hl Hi), retarget_endB.
        destruct (String.eqb _ _); [|left; reflexivity].
        right. exists (assemble.nextuuid (assemble.acc_world a)). split; [lia|reflexivity].
      * rewrite (P5 l Hl Hi). left. reflexivity.
    + intros l Hl Hi. apply P5; assumption.
    + eexists. split; [reflexivity|]. constructor; [|constructor].
      eexists. split; [reflexivity|lia].
Qed.

Lemma ingestPackages_extends : forall root doc descRels ps a a',
  ingestPackages root doc descRels ps a = Done a' ->
  extends (fun l => In (Some l) (Relationships doc)) a a'.
Proof.
  intros root doc descRels. induction ps as [|pkg ps IH]; intros a a' H; cbn in H.
  - injection H as <-. apply extends_refl.
  - destruct (ingestPackage root doc descRels pkg a) as [a1|] eqn:E; [|discriminate H].
    cbn in H. eapply extends_trans; [exact (ingestPackage_extends _ _ _ _ _ _ E)|].
    apply IH, H.
Qed.

Lemma ingestDocs_extends : forall root docs a a',
  ingestDocs root docs a = Done a' -> extends (pointedBy docs) a a'.
Proof.
  intros root. induction docs as [|doc docs IH]; intros a a' H; cbn in H.
  - injection H as <-. apply extends_refl.
  - destruct (ingestDoc root doc a) as [a1|] eqn:E; [|discriminate H]. cbn in H.
    eapply extends_trans.
    + eapply extends_mono; [|exact (ingestPackages_extends _ _ _ _ _ _ E)].
      intros l Hl. exists doc. split; [left; reflexivity|exact Hl].
    + eapply extends_mono; [|exact (IH _ _ H)].
      intros l [d [Hd Hl]]. exists d. split; [right; exact Hd|exact Hl].
Qed.

(** *** The loops return, and what [hierarchicalMerge] returns *)

Lemma ingestPackage_done : forall root doc descRels pkg a,
  pkg <> None -> exists a', ingestPackage root doc descRels pkg a = Done a'.
Proof.
  intros root doc descRels [p|] a Hp; [|contradiction].
  unfold assemble.ingestPackage.
  destruct (cloneComp (Some p)); [|cbn; eauto].
  destruct (assemble.isDescribedPackage _ _ _); cbn; eauto.
Qed.

Lemma ingestPackages_done : forall root doc descRels ps a,
  Forall (fun p => p <> None) ps ->
  exists a', ingestPackages root doc descRels ps a = Done a'.
Proof.
  intros root doc descRels ps a H. revert a.
  induction H as [|pkg ps Hp _ IH]; intros a; cbn.
  - eauto.
  - destruct (ingestPackage_done root doc descRels pkg a Hp) as [a1 ->]. cbn. apply IH.
Qed.

Lemma ingestDocs_done : forall root docs a,
  noNilPackage docs -> exists a', ingestDocs root docs a = Done a'.
Proof.
  intros root. induction docs as [|doc docs IH]; intros a H; cbn.
  - eauto.
  - unfold assemble.ingestDoc.
    destruct (ingestPackages_done root doc
                (filter (assemble.isDescribes (assemble.acc_world a)) (Relationships doc))
                (Packages doc) a) as [a1 ->].
    + apply H. left. reflexivity.
    + cbn. apply IH. intros d Hd. apply H. right. exact Hd.
Qed.

Lemma setupPrimaryComp_id : forall m,
  PackageSPDXIdentifier (setupPrimaryComp m) = assemble.rootID m.
Proof.
  intros m. unfold assemble.setupPrimaryComp. cbv zeta.
  repeat match goal with
         | |- context [if ?b then _ else _] => destruct b
         end; reflexivity.
Qed.

(** The relationship from the document to the root component. *)
Lemma hierarchicalMerge_done : forall w m,
  noNilPackage (assemble.in_ m) -> exists r, hierarchicalMerge w m = Done r.
Proof.
  intros w m H. unfold assemble.hierarchicalMerge. cbn.
  match goal with
  | |- context [assemble.ingestDocs _ ?r ?d ?a] =>
      destruct (ingestDocs_done r d a H) as [a' ->]
  end.
  cbn. eauto.
Qed.

Lemma hierarchicalMerge_inv : forall w m w' m',
  hierarchicalMerge w m = Done (w', m') ->
  exists a',
    ingestDocs (assemble.rootID m) (assemble.in_ m)
      (assemble.mkAcc
         (snd (assemble.new_Relationship
                 (mkRelationship (MakeDocElementID "" "DOCUMENT")
                    (MakeDocElementID "" (assemble.rootID m))
                    assemble.TypeRelationshipDescribe "") w))
         [Some (setupPrimaryComp m)] [Some (assemble.nextloc w)]) = Done a'
    /\ w' = assemble.acc_world a'
    /\ assemble.in_ m' = assemble.in_ m
    /\ Packages (assemble.out m') = assemble.acc_pkgs a'
    /\ Files (assemble.out m') = concat (map Files (assemble.in_ m))
    /\ OtherLicenses (assemble.out m') = flat_map OtherLicenses (assemble.in_ m)
    /\ Relationships (assemble.out m')
       = assemble.acc_deps a'
         ++ flat_map (fun doc => filter (assemble.isNotDescribes w') (Relationships doc))
              (assemble.in_ m).
Proof.
  intros w m w' m' H. unfold assemble.hierarchicalMerge in H. cbn in H.
  rewrite setupPrimaryComp_id in H.
  match type of H with
  | context [assemble.ingestDocs _ ?r ?d ?a] =>
      destruct (assemble.ingestDocs cloneComp r d a) as [a'|] eqn:E; [|discriminate H]
  end.
  cbn in H. injection H as <- <-. exists a'. split; [exact E|]. cbn. repeat split; reflexivity.
Qed.

Lemma ingestPackages_pkgs_prefix : forall root doc dr ps a a',
  ingestPackages root doc dr ps a = Done a' ->
  exists ex, assemble.acc_pkgs a' = assemble.acc_pkgs a ++ ex.
Proof.
  intros root doc dr. induction ps as [|pkg ps IH]; intros a a' H; cbn in H.
  - injection H as <-. exists []. symmetry. apply app_nil_r.
  - destruct (ingestPackage root doc dr pkg a) as [a2|] eqn:E; [|discriminate H].
    cbn in H. destruct (IH _ _ H) as [ex2 ->].
    destruct (ingestPackage_cases _ _ _ _ _ _ E)
      as [(_ & _ & _ & [->|[cp [_ ->]]])|(p & cp & _ & _ & _ & _ & _ & ->)].
    + exists ex2. reflexivity.
    + eexists. rewrite <- app_assoc. reflexivity.
    + eexists. rewrite <- app_assoc. reflexivity.
Qed.

Lemma ingestDocs_pkgs_prefix : forall root docs a a',
  ingestDocs root docs a = Done a' ->
  exists ex, assemble.acc_pkgs a' = assemble.acc_pkgs a ++ ex.
Proof.
  intros root. induction docs as [|doc docs IH]; intros a a' H; cbn in H.
  - injection H as <-. exists []. symmetry. apply app_nil_r.
  - destruct (ingestDoc root doc a) as [a1|] eqn:E; [|discriminate H].
    cbn in H. destruct (IH _ _ H) as [ex2 ->].
    destruct (ingestPackages_pkgs_prefix _ _ _ _ _ _ E) as [ex1 ->].
    eexists. rewrite <- app_assoc. reflexivity.
Qed.

Lemma prefix_refl : forall s : string, String.prefix s s = true.
Proof.
  induction s as [|a s IH]; cbn; [reflexivity|].
  destruct (Ascii.ascii_dec a a); [exact IH|contradiction].
Qed.

Lemma occursIn_suffix : forall pre u : string, occursIn u (pre ++ u)%string.
Proof.
  unfold occursIn. induction pre as [|a pre IH]; intros u; cbn.
  - destruct u; cbn; [reflexivity|].
    destruct (Ascii.ascii_dec a a); [|contradiction]. rewrite prefix_refl. reflexivity.
  - rewrite IH. apply orb_true_r.
Qed.


(** *** Nil entries of a relationship list *)

Lemma isDescribes_dropNil : forall w rels,
  filter (assemble.isDescribes w)
    (filter (fun r => match r with Some _ => true | None => false end) rels)
  = filter (assemble.isDescribes w) rels.
Proof.
  intros w. induction rels as [|[l|] rels IH]; cbn.
  - reflexivity.
  - rewrite IH. reflexivity.
  - exact IH.
Qed.

Lemma isNotDescribes_dropNil : forall w rels,
  filter (assemble.isNotDescribes w)
    (filter (fun r => match r with Some _ => true | None => false end) rels)
  = filter (assemble.isNotDescribes w) rels.
Proof.
  intros w. induction rels as [|[l|] rels IH]; cbn.
  - reflexivity.
  - rewrite IH. reflexivity.
  - exact IH.
Qed.

Lemma retargetAll_dropNil : forall old new rels w,
  assemble.retargetAll old new
    (filter (fun r => match r with Some _ => true | None => false end) rels) w
  = assemble.retargetAll old new rels w.
Proof.
  intros old new. induction rels as [|[l|] rels IH]; intros w; cbn.
  - reflexivity.
  - apply IH.
  - apply IH.
Qed.

Lemma ingestPackage_dropNil : forall root doc descRels pkg a,
  ingestPackage root (dropNilRelationships doc) descRels pkg a
  = ingestPackage root doc descRels pkg a.
Proof.
  intros root doc descRels [p|] a; unfold assemble.ingestPackage; cbn; [|reflexivity].
  destruct (cloneComp (Some p)); [|reflexivity].
  destruct (assemble.describes _ _ _); [|reflexivity].
  rewrite retargetAll_dropNil. reflexivity.
Qed.

Lemma ingestPackages_dropNil : forall root doc descRels ps a,
  ingestPackages root (dropNilRelationships doc) descRels ps a
  = ingestPackages root doc descRels ps a.
Proof.
  intros root doc descRels. induction ps as [|pkg ps IH]; intros a; cbn.
  - reflexivity.
  - rewrite ingestPackage_dropNil.
    destruct (ingestPackage root doc descRels pkg a); cbn; [apply IH|reflexivity].
Qed.

Lemma ingestDocs_dropNil : forall root docs a,
  ingestDocs root (map dropNilRelationships docs) a = ingestDocs root docs a.
Proof.
  intros root. induction docs as [|doc docs IH]; intros a; cbn.
  - reflexivity.
  - unfold assemble.ingestDoc. rewrite ingestPackages_dropNil. cbn.
    rewrite isDescribes_dropNil.
    destruct (ingestPackages root doc _ (Packages doc) a); cbn; [apply IH|reflexivity].
Qed.

Lemma outputs_dropNil : forall w docs,
  flat_map (fun doc => filter (assemble.isNotDescribes w) (Relationships doc))
    (map dropNilRelationships docs)
  = flat_map (fun doc => filter (assemble.isNotDescribes w) (Relationships doc)) docs
  /\ concat (map Files (map dropNilRelationships docs)) = concat (map Files docs)
  /\ flat_map OtherLicenses (map dropNilRelationships docs) = flat_map OtherLicenses docs.
Proof.
  intros w. induction docs as [|doc docs (I1 & I2 & I3)]; cbn.
  - repeat split.
  - rewrite I1, I2, I3, isNotDescribes_dropNil. repeat split.
Qed.

Lemma isNotDescribes_not_nil : forall w rels,
  Forall (fun r => r <> None) (filter (assemble.isNotDescribes w) rels).
Proof.
  intros w rels. apply Forall_forall. intros r Hr. apply filter_In in Hr.
  destruct Hr as [_ Hr]. destruct r; [discriminate|discriminate Hr].
Qed.

(** C9.  Nil entries of the inputs' relationship lists have no effect
    on the merge: run on the inputs and run on the inputs without their
    nil entries, it ends in the same world with the same output (or
    panics in both cases); it returns whenever no package entry is nil,
    nil relationships or not; and no entry of the output's relationship
    list is nil. *)
Theorem nil_relationships_skipped :
  forall (w : assemble.World) (m : assemble.merge),
    observe (hierarchicalMerge w m)
    = observe (hierarchicalMerge w
                 (with_in m (map dropNilRelationships (assemble.in_ m))))
    /\ ((forall doc, In doc (assemble.in_ m) -> Forall (fun p => p <> None) (Packages doc)) ->
        exists r, hierarchicalMerge w m = Done r)
    /\ (forall w' m', hierarchicalMerge w m = Done (w', m') ->
        Forall (fun r => r <> None) (Relationships (assemble.out m'))).
Proof.
  intros w m. split; [|split].
  - unfold assemble.hierarchicalMerge, observe.
    change (assemble.setupPrimaryComp spdx_hash_algos
              (with_in m (map dropNilRelationships (assemble.in_ m))))
      with (setupPrimaryComp m).
    cbn. rewrite ingestDocs_dropNil.
    match goal with
    | |- context [assemble.ingestDocs _ ?r ?d ?a] =>
        destruct (assemble.ingestDocs cloneComp r d a) as [a'|]
    end; cbn; [|reflexivity].
    destruct (outputs_dropNil (assemble.acc_world a') (assemble.in_ m)) as (-> & -> & ->).
    reflexivity.
  - apply hierarchicalMerge_done.
  - intros w' m' H.
    destruct (hierarchicalMerge_inv _ _ _ _ H) as (a' & Hi & -> & _ & _ & _ & _ & Hr).
    pose proof (ingestDocs_extends _ _ _ _ Hi) as Hx.
    unfold extends in Hx. cbv zeta in Hx. cbn in Hx.
    destruct Hx as (_ & _ & _ & _ & _ & _ & _ & ex & Hd & Hex).
    rewrite Hr, Hd. apply Forall_app. split.
    + constructor; [discriminate|].
      eapply Forall_impl; [|exact Hex]. cbn. intros r [l [-> _]]. discriminate.
    + apply Forall_flat_map. apply Forall_forall. intros doc _.
      apply isNotDescribes_not_nil.
Qed.

(** *** What the merge does to its inputs *)

Lemma root_alloc_cells : forall r w l,
  l < assemble.nextloc w ->
  assemble.cells (snd (assemble.new_Relationship r w)) l = assemble.cells w l.
Proof.
  intros r w l Hl. cbn. destruct (Nat.eqb_spec l (assemble.nextloc w)); [lia|reflexivity].
Qed.


(** *** Rewriting towards a described component *)

Lemma describes_true : forall w X dr,
  assemble.describes w X dr = true <-> exists l, In (Some l) dr /\ endB w l = X.
Proof.
  intros w X. induction dr as [|[l|] dr IH]; cbn.
  - split; [discriminate|intros [l [[] _]]].
  - unfold endB in *. destruct (String.eqb_spec (ElementRefID (RefB (assemble.cells w l))) X) as [E|E].
    + split; [|reflexivity]. intros _. exists l. split; [left; reflexivity|exact E].
    + rewrite IH. split.
      * intros [l' [Hl He]]. exists l'. split; [right; exact Hl|exact He].
      * intros [l' [[Hl|Hl] He]]; [injection Hl as ->; contradiction|].
        exists l'. split; assumption.
  - rewrite IH. split.
    + intros [l' [Hl He]]. exists l'. split; [right; exact Hl|exact He].
    + intros [l' [[Hl|Hl] He]]; [discriminate Hl|]. exists l'. split; assumption.
Qed.

Lemma afterDescribed_ends : forall root doc old w l,
  (forall l, In (Some l) (Relationships doc) -> l < assemble.nextloc w) ->
  In (Some l) (Relationships doc) ->
  let w' := afterDescribed root doc old w in
  let new := newid w (assemble.nextuuid w) in
  endA w' l = (if String.eqb (endA w l) old then new else endA w l)
  /\ endB w' l = (if String.eqb (endB w l) old then new else endB w l).
Proof.
  intros root doc old w l Hal Hl w' new.
  destruct (afterDescribed_props root doc old w) as (_ & _ & _ & P4 & _).
  unfold endA, endB, w'. rewrite (P4 l (Hal l Hl) Hl), retarget_endA, retarget_endB.
  split; reflexivity.
Qed.

Section OneDocument.

Variable root : string.
Variable doc : Document.
Variable dr : list (option loc).

Local Abbreviation rels := (Relationships doc).

Local Abbreviation AL := (AL doc).

Lemma AL_extends : forall T a a', extends T a a' -> AL a -> AL a'.
Proof.
  intros T a a' Hx Hal l Hl. destruct Hx as (Hn & _). specialize (Hal l Hl). cbv zeta in Hn. lia.
Qed.

Lemma ingestPackage_keeps : forall Y pkg a a',
  ingestPackage root doc dr pkg a = Done a' ->
  AL a ->
  (forall p, pkg = Some p -> PackageSPDXIdentifier p <> Y) ->
  keeps rels Y (assemble.acc_world a) (assemble.acc_world a').
Proof.
  intros Y pkg a a' H Hal Hne.
  destruct (ingestPackage_cases _ _ _ _ _ _ H) as [(Hw & _)|(p & cp & Hp & _ & _ & Hw & _)].
  - rewrite Hw. intros l _. split; auto.
  - rewrite Hw. intros l Hl.
    destruct (afterDescribed_ends root doc (PackageSPDXIdentifier p) _ l Hal Hl) as [-> ->].
    specialize (Hne p Hp).
    split; intros E; rewrite E;
      (destruct (String.eqb_spec Y (PackageSPDXIdentifier p)) as [E'|_];
       [symmetry in E'; contradiction|reflexivity]).
Qed.

Lemma ingestPackage_avoids : forall X pkg a a',
  ingestPackage root doc dr pkg a = Done a' ->
  AL a ->
  newid (assemble.acc_world a) (assemble.nextuuid (assemble.acc_world a)) <> X ->
  avoids rels X (assemble.acc_world a) (assemble.acc_world a').
Proof.
  intros X pkg a a' H Hal Hne.
  destruct (ingestPackage_cases _ _ _ _ _ _ H) as [(Hw & _)|(p & cp & Hp & _ & _ & Hw & _)].
  - rewrite Hw. intros l _. split; auto.
  - rewrite Hw. intros l Hl.
    destruct (afterDescribed_ends root doc (PackageSPDXIdentifier p) _ l Hal Hl) as [-> ->].
    split; intros E; destruct (String.eqb _ _); assumption.
Qed.

Lemma ingestPackages_keeps : forall Y ps a a',
  ingestPackages root doc dr ps a = Done a' ->
  AL a ->
  (forall p, In (Some p) ps -> PackageSPDXIdentifier p <> Y) ->
  keeps rels Y (assemble.acc_world a) (assemble.acc_world a').
Proof.
  intros Y. induction ps as [|pkg ps IH]; intros a a' H Hal Hne; cbn in H.
  - injection H as <-. intros l _. split; auto.
  - destruct (ingestPackage root doc dr pkg a) as [a1|] eqn:E; [|discriminate H]. cbn in H.
    assert (K1 : keeps rels Y (assemble.acc_world a) (assemble.acc_world a1)).
    { apply (ingestPackage_keeps Y pkg a a1 E Hal).
      intros p ->. apply Hne. left. reflexivity. }
    assert (K2 : keeps rels Y (assemble.acc_world a1) (assemble.acc_world a')).
    { apply (IH a1 a' H).
      - exact (AL_extends _ _ _ (ingestPackage_extends _ _ _ _ _ _ E) Hal).
      - intros p Hp. apply Hne. right. exact Hp. }
    intros l Hl. destruct (K1 l Hl) as [A1 B1], (K2 l Hl) as [A2 B2]. split; auto.
Qed.

Lemma ingestPackages_avoids : forall X ps a a',
  ingestPackages root doc dr ps a = Done a' ->
  AL a ->
  (forall k, assemble.nextuuid (assemble.acc_world a) <= k -> newid (assemble.acc_world a) k <> X) ->
  avoids rels X (assemble.acc_world a) (assemble.acc_world a').
Proof.
  intros X. induction ps as [|pkg ps IH]; intros a a' H Hal Hne; cbn in H.
  - injection H as <-. intros l _. split; auto.
  - destruct (ingestPackage root doc dr pkg a) as [a1|] eqn:E; [|discriminate H]. cbn in H.
    pose proof (ingestPackage_extends _ _ _ _ _ _ E) as Hx.
    assert (K1 : avoids rels X (assemble.acc_world a) (assemble.acc_world a1)).
    { apply (ingestPackage_avoids X pkg a a1 E Hal). apply Hne. lia. }
    assert (K2 : avoids rels X (assemble.acc_world a1) (assemble.acc_world a')).
    { apply (IH a1 a' H).
      - exact (AL_extends _ _ _ Hx Hal).
      - destruct Hx as (_ & Hu & Hk & _). cbv zeta in Hu, Hk.
        intros k Hk'. unfold newid. rewrite Hu. apply Hne. lia. }
    intros l Hl. destruct (K1 l Hl) as [A1 B1], (K2 l Hl) as [A2 B2]. split; auto.
Qed.

Lemma retargeted_then : forall X N w w1 w',
  retargeted rels X N w w1 -> keeps rels N w1 w' -> avoids rels X w1 w' ->
  retargeted rels X N w w'.
Proof.
  intros X N w w1 w' R K A l Hl.
  destruct (R l Hl) as (R1 & R2 & R3 & R4), (K l Hl) as (K1 & K2), (A l Hl) as (A1 & A2).
  repeat split; auto.
Qed.

Lemma keeps_then_retargeted : forall X N w w1 w',
  keeps rels X w w1 -> retargeted rels X N w1 w' -> retargeted rels X N w w'.
Proof.
  intros X N w w1 w' K R l Hl.
  destruct (R l Hl) as (R1 & R2 & R3 & R4), (K l Hl) as (K1 & K2).
  repeat split; auto.
Qed.

(** The package loop reaches a package with identifier [X] that is
    still described: every end that is [X] becomes the identifier
    generated for the first such package that is copied, for good. *)
Lemma ingestPackages_target : forall X ps a a',
  ingestPackages root doc dr ps a = Done a' ->
  AL a ->
  incl dr rels ->
  (forall k p, assemble.nextuuid (assemble.acc_world a) <= k -> In (Some p) ps ->
               PackageSPDXIdentifier p <> newid (assemble.acc_world a) k) ->
  (forall k, assemble.nextuuid (assemble.acc_world a) <= k ->
             newid (assemble.acc_world a) k <> X) ->
  (exists p, In (Some p) ps /\ PackageSPDXIdentifier p = X /\ cloneComp (Some p) <> None) ->
  assemble.describes (assemble.acc_world a) X dr = true ->
  exists k cp,
    assemble.nextuuid (assemble.acc_world a) <= k < assemble.nextuuid (assemble.acc_world a')
    /\ In (Some (set_PackageSPDXIdentifier (newid (assemble.acc_world a) k) cp))
          (assemble.acc_pkgs a')
    /\ retargeted rels X (newid (assemble.acc_world a) k)
         (assemble.acc_world a) (assemble.acc_world a').
Proof.
  intros X. induction ps as [|pkg ps IH]; intros a a' H Hal Hdr Hfp HfX Htarget Hdesc.
  - destruct Htarget as [p [[] _]].
  - cbn in H.
    destruct (ingestPackage root doc dr pkg a) as [a1|] eqn:E; [|discriminate H]. cbn in H.
    pose proof (ingestPackage_extends _ _ _ _ _ _ E) as Hx.
    pose proof (ingestPackages_extends _ _ _ _ _ _ H) as Hx'.
    pose proof (AL_extends _ _ _ Hx Hal) as Hal1.
    destruct Hx as (_ & Hu & Hk & _). cbv zeta in Hu, Hk.
    destruct Hx' as (_ & Hu' & Hk' & _). cbv zeta in Hu', Hk'.
    assert (Hnew : forall k, newid (assemble.acc_world a1) k = newid (assemble.acc_world a) k).
    { intros k. unfold newid. rewrite Hu. reflexivity. }
    destruct Htarget as [p0 [Hin0 [Hid0 Hcl0]]].
    destruct (ingestPackage_cases _ _ _ _ _ _ E)
      as [(Hw & _ & Hwhy & _)|(p & cp & Hp & Hcp & _ & Hw & _ & Hpk)].
    + (* the turn changed nothing: the package is not the one looked for *)
      assert (Hin : In (Some p0) ps).
      { destruct Hin0 as [Hin0|Hin0]; [|exact Hin0]. exfalso. subst pkg.
        destruct Hwhy as [Hwhy|Hwhy]; [|contradiction].
        cbn in Hwhy. rewrite Hid0, Hdesc in Hwhy. discriminate Hwhy. }
      destruct (IH a1 a' H Hal1 Hdr) as (k & cp & Hk1 & Hi & R).
      * intros k p Hk1 Hp. rewrite Hnew. apply Hfp; [lia|right; exact Hp].
      * intros k Hk1. rewrite Hnew. apply HfX. lia.
      * exists p0. auto.
      * rewrite Hw. exact Hdesc.
      * exists k, cp. rewrite Hnew in Hi, R. rewrite Hw in R.
        split; [lia|]. split; assumption.
    + set (w := assemble.acc_world a) in *.
      set (N := newid w (assemble.nextuuid w)) in *.
      destruct (afterDescribed_props root doc (PackageSPDXIdentifier p) w) as (_ & _ & P3 & _).
      rewrite <- Hw in P3.
      destruct (String.eqb_spec (PackageSPDXIdentifier p) X) as [HpX|HpX].
      * (* the package looked for *)
        exists (assemble.nextuuid w), cp. split; [lia|]. split.
        { destruct (ingestPackages_pkgs_prefix _ _ _ _ _ _ H) as [ex ->].
          apply in_or_app. left. rewrite Hpk. apply in_or_app. right. left. reflexivity. }
        assert (HNX : N <> X) by (apply HfX; lia).
        apply retargeted_then with (w1 := assemble.acc_world a1).
        { rewrite Hw. intros l Hl.
          destruct (afterDescribed_ends root doc (PackageSPDXIdentifier p) w l Hal Hl) as [-> ->].
          rewrite HpX. fold N.
          repeat split.
          - intros Ea. rewrite Ea, String.eqb_refl. reflexivity.
          - intros Eb. rewrite Eb, String.eqb_refl. reflexivity.
          - destruct (String.eqb_spec (endA w l) X); [exact HNX|assumption].
          - destruct (String.eqb_spec (endB w l) X); [exact HNX|assumption]. }
        { apply (ingestPackages_keeps N ps a1 a' H Hal1).
          intros q Hq. apply Hfp; [lia|right; exact Hq]. }
        { apply (ingestPackages_avoids X ps a1 a' H Hal1).
          intros k Hk1. rewrite Hnew. apply HfX. lia. }
      * (* a described package with another identifier *)
        assert (K : keeps rels X w (assemble.acc_world a1)).
        { apply (ingestPackage_keeps X pkg a a1 E Hal).
          intros q Hq. rewrite Hp in Hq. injection Hq as <-. exact HpX. }
        assert (Hin : In (Some p0) ps).
        { destruct Hin0 as [Hin0|Hin0]; [|exact Hin0]. exfalso.
          rewrite Hp in Hin0. injection Hin0 as ->. contradiction. }
        destruct (IH a1 a' H Hal1 Hdr) as (k & cp' & Hk1 & Hi & R).
        { intros k q Hk1 Hq. rewrite Hnew. apply Hfp; [lia|right; exact Hq]. }
        { intros k Hk1. rewrite Hnew. apply HfX. lia. }
        { exists p0. auto. }
        { apply describes_true. apply describes_true in Hdesc.
          destruct Hdesc as [l [Hl He]]. exists l. split; [exact Hl|].
          apply (K l (Hdr _ Hl)). exact He. }
        exists k, cp'. rewrite Hnew in Hi, R. split; [lia|]. split; [exact Hi|].
        apply keeps_then_retargeted with (w1 := assemble.acc_world a1); assumption.
Qed.

End OneDocument.

Lemma ingestDoc_target : forall root doc p a a',
  ingestDoc root doc a = Done a' ->
  AL doc a ->
  (forall k q, assemble.nextuuid (assemble.acc_world a) <= k -> In (Some q) (Packages doc) ->
               PackageSPDXIdentifier q <> newid (assemble.acc_world a) k) ->
  In (Some p) (Packages doc) ->
  cloneComp (Some p) <> None ->
  describedIn (assemble.acc_world a) doc p ->
  exists k cp,
    assemble.nextuuid (assemble.acc_world a) <= k < assemble.nextuuid (assemble.acc_world a')
    /\ In (Some (set_PackageSPDXIdentifier (newid (assemble.acc_world a) k) cp))
          (assemble.acc_pkgs a')
    /\ retargeted (Relationships doc) (PackageSPDXIdentifier p)
         (newid (assemble.acc_world a) k) (assemble.acc_world a) (assemble.acc_world a').
Proof.
  intros root doc p a a' H Hal Hf Hp Hc [l [Hl [Hk He]]].
  unfold assemble.ingestDoc in H.
  apply (ingestPackages_target root doc _ (PackageSPDXIdentifier p) (Packages doc) a a' H Hal).
  - intros r Hr. apply filter_In in Hr. tauto.
  - exact Hf.
  - intros k Hk'. intros E. apply (Hf k p Hk' Hp). symmetry. exact E.
  - exists p. auto.
  - apply describes_true. exists l. split; [|exact He].
    apply filter_In. split; [exact Hl|]. cbn. rewrite Hk. reflexivity.
Qed.

Lemma retargeted_same_cells : forall rels X N w1 w2 w1' w2',
  (forall l, In (Some l) rels -> assemble.cells w1 l = assemble.cells w1' l) ->
  (forall l, In (Some l) rels -> assemble.cells w2 l = assemble.cells w2' l) ->
  retargeted rels X N w1 w2 -> retargeted rels X N w1' w2'.
Proof.
  intros rels X N w1 w2 w1' w2' H1 H2 R l Hl.
  specialize (R l Hl). unfold endA, endB in *.
  rewrite <- (H1 l Hl), <- (H2 l Hl). exact R.
Qed.

Lemma ingestDocs_target : forall root docs a a',
  ingestDocs root docs a = Done a' ->
  (forall doc, In doc docs -> AL doc a) ->
  separate docs ->
  (forall k doc q, assemble.nextuuid (assemble.acc_world a) <= k ->
                   In doc docs -> In (Some q) (Packages doc) ->
                   PackageSPDXIdentifier q <> newid (assemble.acc_world a) k) ->
  forall doc p,
    In doc docs -> In (Some p) (Packages doc) -> cloneComp (Some p) <> None ->
    describedIn (assemble.acc_world a) doc p ->
    exists k cp,
      assemble.nextuuid (assemble.acc_world a) <= k < assemble.nextuuid (assemble.acc_world a')
      /\ In (Some (set_PackageSPDXIdentifier (newid (assemble.acc_world a) k) cp))
            (assemble.acc_pkgs a')
      /\ retargeted (Relationships doc) (PackageSPDXIdentifier p)
           (newid (assemble.acc_world a) k) (assemble.acc_world a) (assemble.acc_world a').
Proof.
  intros root. induction docs as [|d r IH]; intros a a' H Hal Hsep Hf doc p Hdoc Hp Hc Hdesc.
  - destruct Hdoc.
  - cbn in H. destruct (ingestDoc root d a) as [a1|] eqn:E; [|discriminate H]. cbn in H.
    pose proof (ingestPackages_extends _ _ _ _ _ _ E) as Hx1.
    pose proof (ingestDocs_extends _ _ _ _ H) as Hx2.
    destruct Hsep as [Hsep1 Hsep2].
    destruct Hdoc as [<-|Hdoc].
    + destruct (ingestDoc_target root d p a a1 E) as (k & cp & Hk & Hi & R); auto.
      { apply Hal. left. reflexivity. }
      { intros k q Hk Hq. apply (Hf k d q Hk); [left; reflexivity|exact Hq]. }
      exists k, cp.
      destruct Hx2 as (_ & _ & Hk2 & _ & _ & _ & Hfr & _). cbv zeta in Hk2, Hfr.
      split; [lia|]. split.
      * destruct (ingestDocs_pkgs_prefix _ _ _ _ H) as [ex ->]. apply in_or_app. left. exact Hi.
      * apply (retargeted_same_cells (Relationships d) _ _
                 (assemble.acc_world a) (assemble.acc_world a1)); auto.
        intros l Hl. symmetry. apply Hfr.
        -- apply (AL_extends d _ _ _ Hx1); [|exact Hl]. apply Hal. left. reflexivity.
        -- apply Hsep1, Hl.
    + assert (Hsame : forall l, In (Some l) (Relationships doc) ->
                        assemble.cells (assemble.acc_world a1) l
                        = assemble.cells (assemble.acc_world a) l).
      { intros l Hl. destruct Hx1 as (_ & _ & _ & _ & _ & _ & Hfr & _). cbv zeta in Hfr.
        apply Hfr.
        - apply (Hal doc); [right; exact Hdoc|exact Hl].
        - intros Hd. apply (Hsep1 l Hd). exists doc. split; assumption. }
      destruct Hx1 as (_ & Hu & Hk1 & _). cbv zeta in Hu, Hk1.
      assert (Hnew : forall k, newid (assemble.acc_world a1) k = newid (assemble.acc_world a) k).
      { intros k. unfold newid. rewrite Hu. reflexivity. }
      destruct (IH a1 a' H) with (doc := doc) (p := p) as (k & cp & Hk & Hi & R); auto.
      { intros d' Hd'. apply (AL_extends d' _ _ _ (ingestPackages_extends _ _ _ _ _ _ E)).
        apply Hal. right. exact Hd'. }
      { intros k d' q Hk Hd' Hq. rewrite Hnew. apply (Hf k d' q); [lia|right; exact Hd'|exact Hq]. }
      { destruct Hdesc as [l [Hl [Hkind He]]]. exists l. unfold endB in *.
        rewrite (Hsame l Hl). auto. }
      exists k, cp. rewrite Hnew in Hi, R. split; [lia|]. split; [exact Hi|].
      apply (retargeted_same_cells (Relationships doc) _ _
               (assemble.acc_world a1) (assemble.acc_world a')); auto.
Qed.

(** C6, as the code has it.  Let the inputs' relationship objects exist before the merge
    and belong to one input each, and let the identifiers the merge
    generates be new.  For a component of an input that is described
    there and is copied, the merge generates an identifier, borne by a
    package of the output, such that, among the relationships of that
    input, every end that was the component's original identifier is
    the generated one after the merge and no end is the original
    identifier any more; the relationships of that input other than
    DESCRIBES are entries of the output's relationship list. *)
Theorem described_component_relationships_rewritten :
  forall (w : assemble.World) (m : assemble.merge) (doc : Document) (p : Package),
    allocated w (assemble.in_ m) ->
    separate (assemble.in_ m) ->
    freshIds w (assemble.in_ m) ->
    In doc (assemble.in_ m) ->
    In (Some p) (Packages doc) ->
    cloneComp (Some p) <> None ->
    describedIn w doc p ->
    (noNilPackage (assemble.in_ m) -> exists r, hierarchicalMerge w m = Done r)
    /\ forall (w' : assemble.World) (m' : assemble.merge),
    hierarchicalMerge w m = Done (w', m') ->
    exists k cp,
      assemble.nextuuid w <= k
      /\ In (Some (set_PackageSPDXIdentifier (newid w k) cp)) (Packages (assemble.out m'))
      /\ retargeted (Relationships doc) (PackageSPDXIdentifier p) (newid w k) w w'
      /\ (forall l, In (Some l) (Relationships doc) ->
            Relationship (assemble.cells w l) <> assemble.TypeRelationshipDescribe ->
            In (Some l) (Relationships (assemble.out m'))).
Proof.
  intros w m doc p Hal Hsep Hfresh Hdoc Hp Hc Hdesc.
  split; [apply hierarchicalMerge_done|]. intros w' m' H.
  destruct (hierarchicalMerge_inv _ _ _ _ H) as (a' & Hi & -> & _ & Hpk & _ & _ & Hr).
  set (a0 := assemble.mkAcc
               (snd (assemble.new_Relationship
                       (mkRelationship (MakeDocElementID "" "DOCUMENT")
                          (MakeDocElementID "" (assemble.rootID m))
                          assemble.TypeRelationshipDescribe "") w))
               [Some (setupPrimaryComp m)] [Some (assemble.nextloc w)]) in *.
  assert (Hc0 : forall d l, In d (assemble.in_ m) -> In (Some l) (Relationships d) ->
                  assemble.cells (assemble.acc_world a0) l = assemble.cells w l).
  { intros d l Hd Hl. apply root_alloc_cells. exact (Hal d l Hd Hl). }
  assert (Hal0 : forall d, In d (assemble.in_ m) -> AL d a0).
  { intros d Hd l Hl. cbn. specialize (Hal d l Hd Hl). lia. }
  assert (Hfresh0 : forall k d q, assemble.nextuuid (assemble.acc_world a0) <= k ->
                      In d (assemble.in_ m) -> In (Some q) (Packages d) ->
                      PackageSPDXIdentifier q <> newid (assemble.acc_world a0) k).
  { intros k d q Hk Hd Hq. exact (Hfresh k d q Hk Hd Hq). }
  assert (Hdesc0 : describedIn (assemble.acc_world a0) doc p).
  { destruct Hdesc as [l [Hl [Hkind He]]]. exists l. unfold endB in *.
    rewrite (Hc0 doc l Hdoc Hl). auto. }
  destruct (ingestDocs_target _ _ _ _ Hi Hal0 Hsep Hfresh0 doc p Hdoc Hp Hc Hdesc0)
    as (k & cp & Hk & Hin & R).
  - exists k, cp. cbn in Hk. split; [lia|]. split; [rewrite Hpk; exact Hin|]. split.
    + apply (retargeted_same_cells (Relationships doc) _ _
               (assemble.acc_world a0) (assemble.acc_world a')); auto.
      intros l Hl. apply (Hc0 doc l Hdoc Hl).
    + intros l Hl Hkind. rewrite Hr. apply in_or_app. right.
      apply in_flat_map. exists doc. split; [exact Hdoc|].
      apply filter_In. split; [exact Hl|]. cbn.
      pose proof (ingestDocs_extends _ _ _ _ Hi) as Hx.
      destruct Hx as (_ & _ & _ & Hs & _). cbv zeta in Hs.
      destruct (Hs l) as (Hsk & _).
      { cbn. specialize (Hal doc l Hdoc Hl). lia. }
      rewrite <- Hsk, (Hc0 doc l Hdoc Hl).
      destruct (String.eqb_spec (Relationship (assemble.cells w l)) assemble.TypeRelationshipDescribe);
        [contradiction|reflexivity].
Qed.

End MergeProperties.

Lemma sample_allocated : allocated sample_world (assemble.in_ sample_merge).
Proof.
  intros doc l Hd Hl. cbn in Hd.
  destruct Hd as [<-|[<-|[]]]; cbn in Hl;
    repeat match goal with
           | H : _ \/ _ |- _ => destruct H as [H|H]
           | H : Some _ = Some _ |- _ => injection H as <-
           | H : None = Some _ |- _ => discriminate H
           | H : False |- _ => destruct H
           end; cbn; lia.
Qed.

Lemma sample_noNilPackage : noNilPackage (assemble.in_ sample_merge).
Proof.
  intros doc Hd. cbn in Hd.
  destruct Hd as [<-|[<-|[]]]; cbn; repeat constructor; discriminate.
Qed.

Lemma sample_root_fresh :
  forall id, inputIdentifier sample_world (assemble.in_ sample_merge) id ->
             ~ occursIn (assemble.rootPackageID sample_merge) id.
Proof.
  intros id [doc [Hd H]]. cbn in Hd.
  destruct Hd as [<-|[<-|[]]];
    (destruct H as [[p [Hp <-]]|[l [Hl H]]];
     [ cbn in Hp | cbn in Hl ];
     repeat match goal with
            | H : _ \/ _ |- _ => destruct H as [H|H]
            | H : Some _ = Some _ |- _ => injection H as <-
            | H : None = Some _ |- _ => discriminate H
            | H : False |- _ => destruct H
            | H : _ = id |- _ => rewrite <- H; clear H
            end;
     unfold occursIn; vm_compute; discriminate).
Qed.





Lemma sample_separate : separate (assemble.in_ sample_merge).
Proof.
  cbn. repeat split.
  - intros l Hl [doc [Hd Hl']]. destruct Hd as [<-|[]]. cbn in Hl, Hl'.
    repeat match goal with
           | H : _ \/ _ |- _ => destruct H as [H|H]
           | H : Some _ = Some _ |- _ => injection H as <-
           | H : None = Some _ |- _ => discriminate H
           | H : False |- _ => destruct H
           end; discriminate.
  - intros l _ [doc [[] _]].
Qed.

Lemma sample_freshIds : freshIds sample_world (assemble.in_ sample_merge).
Proof.
  intros k doc p _ Hd Hp. cbn in Hd.
  destruct Hd as [<-|[<-|[]]]; cbn in Hp;
    repeat match goal with
           | H : _ \/ _ |- _ => destruct H as [H|H]
           | H : Some _ = Some _ |- _ => injection H as <-
           | H : False |- _ => destruct H
           end; unfold newid; cbn; discriminate.
Qed.

Lemma sample_describedIn :
  describedIn sample_world sample_doc1 (sample_package "SPDXRef-A").
Proof.
  exists 0. repeat split. left. reflexivity.
Qed.

Lemma described_component_relationships_rewritten_witness :
  exists w' m' k cp,
    assemble.hierarchicalMerge sameAlgo cloneOk sample_world sample_merge = Done (w', m')
    /\ assemble.nextuuid sample_world <= k
    /\ In (Some (set_PackageSPDXIdentifier (newid sample_world k) cp))
          (Packages (assemble.out m'))
    /\ retargeted (Relationships sample_doc1) "SPDXRef-A" (newid sample_world k)
         sample_world w'
    /\ (forall l, In (Some l) (Relationships sample_doc1) ->
          Relationship (assemble.cells sample_world l) <> assemble.TypeRelationshipDescribe ->
          In (Some l) (Relationships (assemble.out m'))).
Proof.
  destruct (described_component_relationships_rewritten sameAlgo cloneOk
              sample_world sample_merge sample_doc1 (sample_package "SPDXRef-A")
              sample_allocated sample_separate sample_freshIds)
    as [Hdone Hprops].
  - left. reflexivity.
  - left. reflexivity.
  - discriminate.
  - exact sample_describedIn.
  - destruct (Hdone sample_noNilPackage) as [[w' m'] Hr].
    destruct (Hprops w' m' Hr) as (k & cp & H).
    exists w', m', k, cp. split; [exact Hr|exact H].
Defined.

(** C6 as stated fails on the code: the rewriting for a described
    component goes over the relationships of its own input only.  In
    the second sample merge, package A is described in the first input
    and renamed; the relationship from C to A of the second input is in
    the output with the original identifier of A at its end, an
    identifier that no package of the output has. *)
Lemma merge_leaves_identifier_in_other_input :
  exists w' m',
    assemble.hierarchicalMerge sameAlgo cloneOk sample_world2 sample_merge2 = Done (w', m')
    /\ In sample_docA (assemble.in_ sample_merge2)
    /\ In (Some (sample_package "SPDXRef-A")) (Packages sample_docA)
    /\ describedIn sample_world2 sample_docA (sample_package "SPDXRef-A")
    /\ In (Some 2) (Relationships (assemble.out m'))
    /\ endB w' 2 = "SPDXRef-A"
    /\ noPackageWithId "SPDXRef-A" (Packages (assemble.out m')) = true.
Proof.
  eexists. eexists. split; [reflexivity|].
  split; [left; reflexivity|]. split; [left; reflexivity|].
  split; [exists 0; repeat split; left; reflexivity|].
  split; [vm_compute; tauto|]. split; vm_compute; reflexivity.
Qed.
